(** * Trackk: the operation-wise report of [src/app/api/reports/download/route.ts]

    A shallow embedding of the [processWise] branch of the [GET] handler:
    grouping of jobs by product and machine, the two-pointer ON/OFF pairing
    loop with its [remaining] counters, the unmatched-ON pass, the
    aggregation of rows by [groupKey], and the fallback and placeholder rows
    that are added to the worksheet; then the date ranges, the formats of
    dates and times, and the handler with its answers.

    Conventions.
    - A JavaScript number that holds an integer is a [Z]; a [Date] is its
      time value, the milliseconds since the epoch, as a [Z]. Numbers that
      are not integers, [NaN] and the infinities are not represented; an
      invalid date is represented only where the handler makes a date from
      a string of the request.
    - A JavaScript number is a double: an integer of magnitude up to [2^53]
      is one, a larger one only when 53 bits hold it. The subtraction of
      the pairing loop, [remaining -= pairQty], gives the nearest double of
      the difference ([roundDouble], [jsSub]). The additions of the
      aggregation ([+=]) and of the totals ([reduce]) are written with the
      [+] of [Z], which stands for the addition of the code; a property
      that compares such a sum with a total of the input is stated for
      quantities that total at most [2^53], where the addition of the code
      is the sum of the integers.
    - A value that the source tests for truthiness before use
      ([job.quantity || 1], [job.createdAt ? .. : ''], [job.product && ..])
      is an [option]: [None] is [null].
    - Identifiers ([productId], [machineId]) are held as the strings that the
      template literal and [Array.prototype.join] render them to; a numeric
      identifier and the string of its digits are one value here.
    - Arrays are lists, read with [!!] and written with [<[ i := x ]>].
    - Objects used as insertion-ordered maps ([jobGroups], [groupedRowsObj])
      are association lists; their keys always contain ["__"] or ["|"], so
      they are never array indices and JavaScript enumerates them in
      insertion order.
    - The pairing is given twice: on lists of copies, where most properties
      are proved, and on a store of objects with references, where the
      writes of the loop are visible; the two are shown to agree. *)

From Stdlib Require Import ZArith Ascii String Sorted.
From stdpp Require Import base tactics option numbers list strings pretty gmap.

Local Open Scope string_scope.
Local Open Scope list_scope.
Local Open Scope Z_scope.

#[local] Set Warnings "-clear-no-such-hyp".

(** ** JavaScript primitives used by the handler *)

(** [ToNumber] on a number or [null]. *)
Definition toNumber (v : option Z) : Z := default 0 v.

(** Truthiness of a number or [null]: [0] and [null] are falsy. *)
Definition truthyNum (v : option Z) : bool :=
  match v with
  | Some n => negb (n =? 0)
  | None => false
  end.

(** Truthiness of a string or [null]: [''] and [null] are falsy. *)
Definition truthyStr (v : option string) : bool :=
  match v with
  | Some s => negb (String.eqb s "")
  | None => false
  end.

(** [a || b] where [a] may be [null] or [''] and [b] is a string. *)
Definition orStr (a : option string) (b : string) : string :=
  match a with
  | Some s => if String.eqb s "" then b else s
  | None => b
  end.

(** [Math.min(a, b)]: both arguments go through [ToNumber]. *)
Definition mathMin (a b : option Z) : Z := Z.min (toNumber a) (toNumber b).

(** The nearest double of an integer, a tie going to the even significand
    (the rounding of IEEE 754 that JavaScript arithmetic uses). An integer
    of magnitude up to [2^53] is a double. A larger one is a double when it
    is a multiple of [2^e], where [e] leaves 53 significant bits. (From
    [2^1024] on JavaScript has only [Infinity]; the loop never gets there,
    as it subtracts from a counter no more than the counter holds.) *)
Definition roundDouble (z : Z) : Z :=
  if Z.abs z <=? 2 ^ 53 then z
  else
    let e := Z.log2 (Z.abs z) - 52 in
    let q := Z.abs z `div` 2 ^ e in
    let r := Z.abs z `mod` 2 ^ e in
    let q' :=
      if 2 * r <? 2 ^ e then q
      else if 2 ^ e <? 2 * r then q + 1
      else if Z.even q then q else q + 1 in
    Z.sgn z * (q' * 2 ^ e).

Definition isDouble (z : Z) : bool := roundDouble z =? z.

(** [a - b] on numbers: the nearest double of the difference. An operand
    that is no double is no value of JavaScript; the difference is then
    left as it is. *)
Definition jsSub (a b : Z) : Z :=
  if isDouble a && isDouble b then roundDouble (a - b) else a - b.

(** [Math.round(n / d)] for integers [n] and [d > 0]: the nearest integer,
    a tie going up, that is [floor (n / d + 1/2)]. *)
Definition mathRoundDiv (n d : Z) : Z := (2 * n + d) `div` (2 * d).

(** [s.padStart(w, '0')]. *)
Fixpoint zeros (n : nat) : string :=
  match n with
  | O => ""
  | S n' => String "0" (zeros n')
  end.

Definition padStart0 (w : nat) (s : string) : string :=
  zeros (w - String.length s) +:+ s.

(** [n.toString().padStart(2, '0')]. *)
Definition pad2 (n : Z) : string := padStart0 2 (pretty n).

(** ** Dates *)

(** [new Date(v)] on a [Date] or [null]: [null] converts to the time value 0. *)
Definition newDate (v : option Z) : Z := default 0 v.

(** [d.setSeconds(0, 0)]: the seconds and milliseconds of the local time are
    cleared. The offset of local time is a whole number of minutes, so this
    is the time value rounded down to a multiple of 60000. *)
Definition setSeconds00 (t : Z) : Z := t - t `mod` 60000.

(** The civil date of a day number (days since 1970-01-01), in the
    proleptic Gregorian calendar that [Date] uses. *)
Definition civilFromDays (days : Z) : Z * Z * Z :=
  let z := days + 719468 in
  let era := z `div` 146097 in
  let doe := z - era * 146097 in
  let yoe := (doe - doe `div` 1460 + doe `div` 36524 - doe `div` 146096) `div` 365 in
  let doy := doe - (365 * yoe + yoe `div` 4 - yoe `div` 100) in
  let mp := (5 * doy + 2) `div` 153 in
  let d := doy - (153 * mp + 2) `div` 5 + 1 in
  let m := if mp <? 10 then mp + 3 else mp - 9 in
  let y := yoe + era * 400 + (if m <=? 2 then 1 else 0) in
  (y, m, d).

(** The year of [toISOString]: four digits, or a sign and six digits
    outside 0..9999. *)
Definition isoYear (y : Z) : string :=
  if (0 <=? y) && (y <=? 9999) then padStart0 4 (pretty y)
  else (if y <? 0 then "-" else "+") +:+ padStart0 6 (pretty (Z.abs y)).

(** [d.toISOString().split('T')[0]]: the UTC calendar date. *)
Definition isoDate (t : Z) : string :=
  let '(y, m, d) := civilFromDays (t `div` 86400000) in
  isoYear y +:+ "-" +:+ pad2 m +:+ "-" +:+ pad2 d.

(** ** [getMachineNumber] *)

Definition isDigit (c : ascii) : bool :=
  let n := nat_of_ascii c in (48 <=? n)%nat && (n <=? 57)%nat.

Definition isHash (c : ascii) : bool := (nat_of_ascii c =? 35)%nat.

(** The longest run of digits at the start of [s]: what [\d+] consumes. *)
Fixpoint takeDigits (s : string) : string :=
  match s with
  | String c s' => if isDigit c then String c (takeDigits s') else ""
  | EmptyString => ""
  end.

Definition startsWithDigit (s : string) : bool :=
  match s with
  | String c _ => isDigit c
  | EmptyString => false
  end.

(** [s.match(/#(\d+)/)]: the leftmost [#] that a digit follows; the capture
    is the digit run after it. *)
Fixpoint matchHashDigits (s : string) : option string :=
  match s with
  | String c s' =>
      if isHash c && startsWithDigit s' then Some (takeDigits s')
      else matchHashDigits s'
  | EmptyString => None
  end.

Fixpoint allDigits (s : string) : bool :=
  match s with
  | String c s' => isDigit c && allDigits s'
  | EmptyString => true
  end.

(** [s.match(/(\d+)$/)]: the leftmost position from which only digits
    follow up to the end; no match when the string does not end in a digit. *)
Fixpoint matchTrailingDigits (s : string) : option string :=
  match s with
  | String c s' =>
      if allDigits s then Some s else matchTrailingDigits s'
  | EmptyString => None
  end.

Definition getMachineNumber (machineName : option string) : string :=
  if negb (truthyStr machineName) then ""
  else
    let name := default "" machineName in
    match matchHashDigits name with
    | Some m => m
    | None =>
        match matchTrailingDigits name with
        | Some m => m
        | None => ""
        end
    end.

(** ** Data *)

(** The related records that [include: { machine: true, product: true }]
    attaches to a job. *)
Record Product := { product_name : option string }.
Record Machine := { machine_name : option string }.

Record Job := {
  productId : string;
  machineId : string;
  state : string;
  quantity : option Z;
  createdAt : option Z;
  updatedAt : option Z;
  product : option Product;
  machine : option Machine;
}.

(** [{...j, remaining: j.quantity}]: a copy of the job with its counter. *)
Record PairJob := {
  job : Job;
  remaining : option Z;
}.

(** A worksheet row. [row_totalTime] is a number, or [None] for ['']. *)
Record Row := {
  row_productId : string;
  row_quantity : Z;
  row_machineNumber : string;
  row_date : string;
  row_onTime : string;
  row_offTime : string;
  row_totalTime : option Z;
}.

(** ** Formatting of times

    [getHours] and [getMinutes] read the local time. [tz t] is the offset of
    local time from UTC, in minutes, at the instant [t]. *)

Section Report.

Variable tz : Z → Z.

Definition localTime (t : Z) : Z := t + tz t * 60000.
Definition getHours (t : Z) : Z := (localTime t `div` 3600000) `mod` 24.
Definition getMinutes (t : Z) : Z := (localTime t `div` 60000) `mod` 60.

(** [`${d.getHours().toString().padStart(2, '0')}:${d.getMinutes().toString().padStart(2, '0')}`] *)
Definition hhmm (t : Z) : string :=
  pad2 (getHours t) +:+ ":" +:+ pad2 (getMinutes t).

(** ** Rows of the pairing

    The pairing runs on jobs that the grouping has kept, so [product] and
    [machine] are present and [product j ≫= product_name] is
    [onJob.product.name]. *)

(** [onJob.product.name || onJob.productId] *)
Definition productLabel (j : Job) : string :=
  orStr (product j ≫= product_name) (productId j).

(** [getMachineNumber(onJob.machine.name)] *)
Definition machineNumberOf (j : Job) : string :=
  getMachineNumber (machine j ≫= machine_name).

(** [new Date(onJob.createdAt)] followed by [setSeconds(0, 0)]. *)
Definition onTimeOf (j : Job) : Z := setSeconds00 (newDate (createdAt j)).

(** [new Date(offJob.updatedAt || offJob.createdAt)] followed by
    [setSeconds(0, 0)]; a [Date] is truthy, so [createdAt] is used only when
    [updatedAt] is [null]. *)
Definition closeTimeOf (j : Job) : Z :=
  setSeconds00
    (newDate (match updatedAt j with Some u => Some u | None => createdAt j end)).

(** [Math.round((offTime.getTime() - onTime.getTime()) / 60000)] *)
Definition totalTimeOf (onJob offJob : Job) : Z :=
  mathRoundDiv (closeTimeOf offJob - onTimeOf onJob) 60000.

(** The row pushed for a pair; [totalTime ? totalTime : ''] turns 0 into ['']. *)
Definition matchedRow (onJob offJob : PairJob) (pairQty : Z) : Row :=
  let totalTime := totalTimeOf (job onJob) (job offJob) in
  {| row_productId := productLabel (job onJob);
     row_quantity := pairQty;
     row_machineNumber := machineNumberOf (job onJob);
     row_date := isoDate (onTimeOf (job onJob));
     row_onTime := hhmm (onTimeOf (job onJob));
     row_offTime := hhmm (closeTimeOf (job offJob));
     row_totalTime := if totalTime =? 0 then None else Some totalTime |}.

(** The row pushed for an ON job that is left with [remaining > 0]. *)
Definition unmatchedRow (onJob : PairJob) : Row :=
  {| row_productId := productLabel (job onJob);
     row_quantity := toNumber (remaining onJob);
     row_machineNumber := machineNumberOf (job onJob);
     row_date := isoDate (onTimeOf (job onJob));
     row_onTime := hhmm (onTimeOf (job onJob));
     row_offTime := "";
     row_totalTime := None |}.

(** ** The pairing loop *)

Record PairState := {
  onJobs : list PairJob;
  offJobs : list PairJob;
  onIdx : nat;
  offIdx : nat;
  rows : list Row;          (* what this group has pushed to [allRows] *)
}.

(** How control leaves the loop body, and how it leaves the loop. *)
Inductive Flow := Next | Break.
Inductive Exit := CondFalse | DefensiveBreak | OutOfFuel.

(** [x.remaining === 0]: strict equality, [null] is not [0]. *)
Definition isZero (r : option Z) : bool :=
  match r with
  | Some 0 => true
  | _ => false
  end.

(** [x.remaining -= pairQty] *)
Definition subRemaining (x : PairJob) (pairQty : Z) : PairJob :=
  {| job := job x; remaining := Some (jsSub (toNumber (remaining x)) pairQty) |}.

(** One run of the body of [while], with [onJob = onJobs[onIdx]] and
    [offJob = offJobs[offIdx]]. The two jobs are objects of the arrays, so
    the writes to [remaining] are writes to the arrays' elements. *)
Definition pairBody (s : PairState) (onJob offJob : PairJob) : PairState * Flow :=
  let pairQty := mathMin (remaining onJob) (remaining offJob) in
  let onJob' := if 0 <? pairQty then subRemaining onJob pairQty else onJob in
  let offJob' := if 0 <? pairQty then subRemaining offJob pairQty else offJob in
  let rows' :=
    if 0 <? pairQty then rows s ++ [matchedRow onJob offJob pairQty] else rows s in
  let s' := {| onJobs := <[onIdx s := onJob']> (onJobs s);
               offJobs := <[offIdx s := offJob']> (offJobs s);
               onIdx := onIdx s; offIdx := offIdx s; rows := rows' |} in
  if isZero (remaining onJob') && isZero (remaining offJob') then
    ({| onJobs := onJobs s'; offJobs := offJobs s';
        onIdx := S (onIdx s'); offIdx := S (offIdx s'); rows := rows s' |}, Next)
  else if isZero (remaining onJob') then
    ({| onJobs := onJobs s'; offJobs := offJobs s';
        onIdx := S (onIdx s'); offIdx := offIdx s'; rows := rows s' |}, Next)
  else if isZero (remaining offJob') then
    ({| onJobs := onJobs s'; offJobs := offJobs s';
        onIdx := onIdx s'; offIdx := S (offIdx s'); rows := rows s' |}, Next)
  else (s', Break).

(** [while (onIdx < onJobs.length && offIdx < offJobs.length) { .. }], run
    for at most [fuel] tests of the condition. *)
Fixpoint pairLoop (fuel : nat) (s : PairState) : PairState * Exit :=
  match fuel with
  | O => (s, OutOfFuel)
  | S fuel' =>
      match onJobs s !! onIdx s, offJobs s !! offIdx s with
      | Some onJob, Some offJob =>
          match pairBody s onJob offJob with
          | (s', Next) => pairLoop fuel' s'
          | (s', Break) => (s', DefensiveBreak)
          end
      | _, _ => (s, CondFalse)
      end
  end.

(** [for (; onIdx < onJobs.length; onIdx++) { if (onJob.remaining > 0) .. }]
    over the ON jobs from [onIdx] on. *)
Fixpoint unmatchedRows (rest : list PairJob) : list Row :=
  match rest with
  | [] => []
  | onJob :: rest' =>
      if 0 <? toNumber (remaining onJob)
      then unmatchedRow onJob :: unmatchedRows rest'
      else unmatchedRows rest'
  end.

(** ** One group *)

(** The comparator of [group.sort]. *)
Definition compareCreatedAt (a b : Job) : Z :=
  newDate (createdAt a) - newDate (createdAt b).

(** [Array.prototype.sort] is stable: an element goes in front of the first
    element that it does not compare greater than. *)
Fixpoint insertSorted {A} (cmp : A → A → Z) (x : A) (l : list A) : list A :=
  match l with
  | [] => [x]
  | y :: l' => if cmp x y <=? 0 then x :: l else y :: insertSorted cmp x l'
  end.

Fixpoint sortBy {A} (cmp : A → A → Z) (l : list A) : list A :=
  match l with
  | [] => []
  | x :: l' => insertSorted cmp x (sortBy cmp l')
  end.

Definition sortGroup (group : list Job) : list Job :=
  sortBy compareCreatedAt group.

Definition withRemaining (j : Job) : PairJob :=
  {| job := j; remaining := quantity j |}.

Definition isOn (j : Job) : bool := String.eqb (state j) "ON".
Definition isOff (j : Job) : bool := String.eqb (state j) "OFF".

Definition initPair (group : list Job) : PairState :=
  let sorted := sortGroup group in
  {| onJobs := withRemaining <$> List.filter isOn sorted;
     offJobs := withRemaining <$> List.filter isOff sorted;
     onIdx := O; offIdx := O; rows := [] |}.

(** Every run of the body that does not break moves an index forward, so
    the condition is tested at most this many times. *)
Definition pairFuel (s : PairState) : nat :=
  S (length (onJobs s) + length (offJobs s)).

Definition runPairLoop (group : list Job) : PairState * Exit :=
  pairLoop (pairFuel (initPair group)) (initPair group).

(** The callback of [Object.values(jobGroups).forEach]: the rows that one
    group pushes to [allRows]. *)
Definition reconcileGroup (group : list Job) : list Row :=
  let s := (runPairLoop group).1 in
  rows s ++ unmatchedRows (drop (onIdx s) (onJobs s)).

(** ** Grouping of the jobs *)

(** [!job.product || !job.machine] is false: the job is kept. *)
Definition resolved (j : Job) : bool :=
  match product j, machine j with
  | Some _, Some _ => true
  | _, _ => false
  end.

(** [`${job.productId}__${job.machineId}`] *)
Definition jobKey (j : Job) : string := productId j +:+ "__" +:+ machineId j.

(** [if (!jobGroups[key]) jobGroups[key] = []; jobGroups[key].push(job)] *)
Fixpoint pushJob (key : string) (j : Job) (groups : list (string * list Job))
  : list (string * list Job) :=
  match groups with
  | [] => [(key, [j])]
  | (k, g) :: groups' =>
      if String.eqb k key then (k, g ++ [j]) :: groups'
      else (k, g) :: pushJob key j groups'
  end.

(** The callback of [jobs.forEach] that fills [jobGroups]. *)
Definition addJob (groups : list (string * list Job)) (j : Job)
  : list (string * list Job) :=
  if resolved j then pushJob (jobKey j) j groups else groups.

Definition jobGroups (jobs : list Job) : list (string * list Job) :=
  foldl addJob [] jobs.

(** [allRows] after [Object.values(jobGroups).forEach(..)]. *)
Definition allRows (jobs : list Job) : list Row :=
  flat_map (λ kg, reconcileGroup kg.2) (jobGroups jobs).

(** ** Aggregation of the rows *)

(** The last element of the joined array: a number or ['']. *)
Definition totalTimeStr (t : option Z) : string :=
  match t with
  | Some n => pretty n
  | None => ""
  end.

(** [[row.productId, row.machineNumber, row.date, row.onTime, row.offTime,
      row.totalTime].join('|')] *)
Definition groupKey (r : Row) : string :=
  row_productId r +:+ "|" +:+ row_machineNumber r +:+ "|" +:+ row_date r
    +:+ "|" +:+ row_onTime r +:+ "|" +:+ row_offTime r
    +:+ "|" +:+ totalTimeStr (row_totalTime r).

(** [groupedRowsObj[groupKey].quantity += row.quantity] *)
Definition addQuantity (r : Row) (q : Z) : Row :=
  {| row_productId := row_productId r;
     row_quantity := row_quantity r + q;
     row_machineNumber := row_machineNumber r;
     row_date := row_date r;
     row_onTime := row_onTime r;
     row_offTime := row_offTime r;
     row_totalTime := row_totalTime r |}.

(** The body of [for (const row of allRows)]: a new key is added at the end
    with a copy of the row, a known key has the quantity added in place. *)
Fixpoint mergeRow (key : string) (row : Row) (obj : list (string * Row))
  : list (string * Row) :=
  match obj with
  | [] => [(key, row)]
  | (k, r) :: obj' =>
      if String.eqb k key then (k, addQuantity r (row_quantity row)) :: obj'
      else (k, r) :: mergeRow key row obj'
  end.

Definition groupedRowsObj (rws : list Row) : list (string * Row) :=
  foldl (λ obj row, mergeRow (groupKey row) row obj) [] rws.

(** The rows that [for (const key in groupedRowsObj)] adds, in order. *)
Definition aggregate (rws : list Row) : list Row := (groupedRowsObj rws).*2.

(** ** The worksheet *)

(** What [worksheet.addRow] receives: a row object, the object that has only
    [productId] (the placeholder), [[]] or the summary array. *)
Inductive SheetRow :=
  | DataRow (r : Row)
  | MessageRow (productId : string)
  | EmptyRow
  | SummaryRow (label : string) (total : Z).

(** The date, or [''], of [job.createdAt ? .. : ''] and the like. *)
Definition hhmmOpt (d : option Z) : string :=
  match d with
  | Some t => hhmm (newDate (Some t))
  | None => ""
  end.

Definition isoDateOpt (d : option Z) : string :=
  match d with
  | Some t => isoDate (newDate (Some t))
  | None => ""
  end.

(** The row of the fallback [jobs.forEach]. *)
Definition fallbackRow (j : Job) : Row :=
  {| row_productId :=
       orStr (Some (orStr (product j ≫= product_name) (productId j))) "Unknown";
     row_quantity := if truthyNum (quantity j) then toNumber (quantity j) else 1;
     row_machineNumber := getMachineNumber (machine j ≫= machine_name);
     row_date := isoDateOpt (createdAt j);
     row_onTime := hhmmOpt (createdAt j);
     row_offTime := hhmmOpt (updatedAt j);
     row_totalTime := None |}.

Definition noDataMessage : string := "No data found for the selected criteria.".

(** [Object.values(groupedRowsObj).reduce((sum, row) => sum + row.quantity, 0)] *)
Definition totalQuantity (merged : list Row) : Z :=
  foldl (λ sum row, sum + row_quantity row) 0 merged.

(** The rows added to the worksheet, in order, together with the final value
    of [addedRows]. *)
Definition worksheetRows (jobs : list Job) : list SheetRow * nat :=
  let merged := aggregate (allRows jobs) in
  let sheet := DataRow <$> merged in
  let addedRows := length merged in
  let fallback := (addedRows =? 0)%nat && (0 <? length jobs)%nat in
  let sheet := if fallback then sheet ++ (DataRow ∘ fallbackRow <$> jobs) else sheet in
  let addedRows := if fallback then length jobs else addedRows in
  let sheet := if (addedRows =? 0)%nat then sheet ++ [MessageRow noDataMessage] else sheet in
  (sheet ++ [EmptyRow; SummaryRow "Total Products:" (totalQuantity merged)], addedRows).

(** ** The pairing over a store of objects

    The jobs are objects, and arrays hold references to them. [group.sort]
    moves references, [filter] builds arrays of references, the spread in
    [map] allocates a new object for every job, and the loop writes
    [remaining] through the references of [onJobs] and [offJobs]. *)

(** An object of the store: the fields of a job and, when the object has
    the property, [remaining]. *)
Record Obj := {
  fields : Job;
  remainingProp : option (option Z);
}.

#[global] Instance Job_inhabited : Inhabited Job :=
  populate {| productId := ""; machineId := ""; state := ""; quantity := None;
              createdAt := None; updatedAt := None; product := None;
              machine := None |}.
#[global] Instance Obj_inhabited : Inhabited Obj :=
  populate {| fields := inhabitant; remainingProp := None |}.

(** A job object as the query returned it: no [remaining]. *)
Definition jobObj (j : Job) : Obj := {| fields := j; remainingProp := None |}.

(** The job that a reference points to. *)
Definition jobAt (h : gmap nat Obj) (l : nat) : Job := fields (h !!! l).

(** [x.remaining], read through the reference. *)
Definition remainingAt (h : gmap nat Obj) (l : nat) : option Z :=
  default None (remainingProp (h !!! l)).

Definition pairJobAt (h : gmap nat Obj) (l : nat) : PairJob :=
  {| job := jobAt h l; remaining := remainingAt h l |}.

(** [x.remaining = v], written through the reference. *)
Definition setRemaining (l : nat) (v : option Z) (h : gmap nat Obj)
  : gmap nat Obj :=
  <[l := {| fields := jobAt h l; remainingProp := Some v |}]> h.

(** [{...j, remaining: j.quantity}]: a new object. *)
Definition spreadCopy (h : gmap nat Obj) (l : nat) : gmap nat Obj * nat :=
  let l' := fresh (dom h) in
  (<[l' := {| fields := jobAt h l; remainingProp := Some (quantity (jobAt h l)) |}]> h,
   l').

(** [refs.map(j => ({...j, remaining: j.quantity}))] *)
Fixpoint spreadCopies (h : gmap nat Obj) (refs : list nat)
  : gmap nat Obj * list nat :=
  match refs with
  | [] => (h, [])
  | l :: refs' =>
      let '(h1, l') := spreadCopy h l in
      let '(h2, ls) := spreadCopies h1 refs' in
      (h2, l' :: ls)
  end.

Record HeapState := {
  store : gmap nat Obj;
  onRefs : list nat;
  offRefs : list nat;
  hOnIdx : nat;
  hOffIdx : nat;
  hRows : list Row;
}.

(** The body of [while] on the store; the statements in source order. *)
Definition heapBody (s : HeapState) (onRef offRef : nat) : HeapState * Flow :=
  let h := store s in
  let pairQty := mathMin (remainingAt h onRef) (remainingAt h offRef) in
  let rows' :=
    if 0 <? pairQty
    then hRows s ++ [matchedRow (pairJobAt h onRef) (pairJobAt h offRef) pairQty]
    else hRows s in
  let h1 :=
    if 0 <? pairQty
    then setRemaining onRef (Some (jsSub (toNumber (remainingAt h onRef)) pairQty)) h
    else h in
  let h2 :=
    if 0 <? pairQty
    then setRemaining offRef (Some (jsSub (toNumber (remainingAt h1 offRef)) pairQty)) h1
    else h1 in
  let onZero := isZero (remainingAt h2 onRef) in
  let offZero := isZero (remainingAt h2 offRef) in
  let next i j :=
    {| store := h2; onRefs := onRefs s; offRefs := offRefs s;
       hOnIdx := i; hOffIdx := j; hRows := rows' |} in
  if onZero && offZero then (next (S (hOnIdx s)) (S (hOffIdx s)), Next)
  else if onZero then (next (S (hOnIdx s)) (hOffIdx s), Next)
  else if offZero then (next (hOnIdx s) (S (hOffIdx s)), Next)
  else (next (hOnIdx s) (hOffIdx s), Break).

Fixpoint heapLoop (fuel : nat) (s : HeapState) : HeapState * Exit :=
  match fuel with
  | O => (s, OutOfFuel)
  | S fuel' =>
      match onRefs s !! hOnIdx s, offRefs s !! hOffIdx s with
      | Some onRef, Some offRef =>
          match heapBody s onRef offRef with
          | (s', Next) => heapLoop fuel' s'
          | (s', Break) => (s', DefensiveBreak)
          end
      | _, _ => (s, CondFalse)
      end
  end.

(** The callback of [Object.values(jobGroups).forEach] on a store [h] and a
    group given as an array of references: the store afterwards, and the
    rows pushed. *)
Definition reconcileGroupOnStore (h : gmap nat Obj) (group : list nat)
  : gmap nat Obj * list Row :=
  let sorted := sortBy (λ a b, compareCreatedAt (jobAt h a) (jobAt h b)) group in
  let '(h1, ons) := spreadCopies h (List.filter (λ l, isOn (jobAt h l)) sorted) in
  let '(h2, offs) := spreadCopies h1 (List.filter (λ l, isOff (jobAt h1 l)) sorted) in
  let s0 := {| store := h2; onRefs := ons; offRefs := offs;
               hOnIdx := O; hOffIdx := O; hRows := [] |} in
  let s := (heapLoop (S (length ons + length offs)) s0).1 in
  (store s,
   hRows s ++ unmatchedRows (pairJobAt (store s) <$> drop (hOnIdx s) (onRefs s))).

End Report.

(** ** Date ranges and the handler

    The rest of the file: [getDateRange], [formatTimeHHMMNoSeconds] and the
    [GET] handler around the two reports. What the handler gets from
    outside is a parameter: the zone of local time, the parsing of a date
    string by [new Date], [String.prototype.toUpperCase], the two Prisma
    queries, the creation of the record of a download, the writing of the
    workbook and the check of the header values by [new Headers]. A call
    that can throw says what it throws. A date that comes from a string
    may be [Invalid Date]: it is an [option], and [None] is the invalid
    date. *)

(** The zone of a fixed offset, for the functions above. *)
Definition fixedZone (offset : Z) : Z → Z := λ _, offset.

(** The fields that the dispatched-products query selects and the report
    uses. *)
Record Dispatched := {
  d_product : string;
  d_quantity : Z;
  d_createdAt : Z;
}.

(** What [worksheet.addRow] receives in the dispatched-products report. *)
Inductive DispatchRow :=
  | ProductRow (product : string) (quantity : Z) (date : Z)
  | DispatchEmptyRow
  | DispatchSummaryRow (label : string) (total : Z).

Inductive Worksheet :=
  | OperationSheet (sheet : list SheetRow)
  | DispatchedSheet (sheet : list DispatchRow).

(** A JSON answer with its status, or the workbook with the name of its
    worksheet and the [Content-Disposition] header. *)
Inductive Response :=
  | JsonResponse (status : Z) (error : string)
  | XlsxResponse (sheetName : string) (sheet : Worksheet)
      (contentDisposition : string).

(** [searchParams.get] of the four parameters that the handler reads. *)
Record Query := {
  q_reportType : option string;
  q_startDate : option string;
  q_endDate : option string;
  q_process : option string;
}.

(** [s.replace(/ /g, '_')] *)
Fixpoint replaceSpaces (s : string) : string :=
  match s with
  | String c s' =>
      String (if Ascii.eqb c " " then "_"%char else c) (replaceSpaces s')
  | EmptyString => ""
  end.

(** [s.charAt(0)] and [s.slice(1)] *)
Definition charAt0 (s : string) : string :=
  match s with
  | String c _ => String c ""
  | EmptyString => ""
  end.

Definition slice1 (s : string) : string :=
  match s with
  | String _ s' => s'
  | EmptyString => ""
  end.

(** The double quote of the header. *)
Definition dquote : string := String (ascii_of_nat 34) "".

(** [`attachment; filename="${reportName.replace(/ /g, '_')}.xlsx"`] *)
Definition contentDispositionOf (reportName : string) : string :=
  "attachment; filename=" +:+ dquote +:+ replaceSpaces reportName
    +:+ ".xlsx" +:+ dquote.

(** What a call throws: an [Error] with its message, or another value. *)
Inductive Thrown :=
  | ErrorWith (message : string)
  | OtherValue.

(** [error instanceof Error ? error.message : 'An unknown error occurred'] *)
Definition errorMessage (e : Thrown) : string :=
  match e with
  | ErrorWith message => message
  | OtherValue => "An unknown error occurred"
  end.

(** The answer of the [catch] block. *)
Definition serverError (e : Thrown) : Response :=
  JsonResponse 500 (errorMessage e).

(** The number of the local day of an instant, for local time [offset]
    minutes east of UTC. *)
Definition localDay (offset t : Z) : Z := (t + offset * 60000) `div` 86400000.

(** [d.getDate()]: the day of the month, and [d.getDay()]: the day of the
    week, 0 for Sunday (the first of January 1970 was a Thursday), for the
    offset that local time has at the instant. *)
Definition getDate (offset t : Z) : Z := (civilFromDays (localDay offset t)).2.
Definition getDay (offset t : Z) : Z := (localDay offset t + 4) `mod` 7.

Section Handler.

(** The zone: [tz t] is the offset of local time, in minutes, at the
    instant [t], and [tzLocal x] is the offset by which the zone reads the
    local time [x] as an instant ([LocalTZA(t, true)] and
    [LocalTZA(x, false)] of the language, which differ around a change of
    offset). *)
Variable tz : Z → Z.
Variable tzLocal : Z → Z.
Variable parseDate : string → option Z.
Variable toUpperCase : string → string.
Variable findJobs : string → option Z → option Z → Thrown + list Job.
Variable findDispatched : option Z → option Z → Thrown + list Dispatched.
Variable createReport : string → option Thrown.
Variable writeBuffer : Worksheet → option Thrown.
Variable newHeaders : string → option Thrown.

(** [UTC(x)]: the instant that the zone gives to the local time [x]. *)
Definition utcOfLocal (x : Z) : Z := x - tzLocal x * 60000.

(** [d.setHours(h, m, s, ms)]: the local day of the date, at the given time
    of the day, read as an instant by the zone. *)
Definition setHours (h m s ms : Z) (t : Z) : Z :=
  utcOfLocal (localDay (tz t) t * 86400000
              + (h * 3600000 + m * 60000 + s * 1000 + ms)).

(** [d.setDate(n)]: the day of the month becomes [n], rolling over the ends
    of the month; the local time of the day is kept. *)
Definition setDate (n : Z) (t : Z) : Z :=
  utcOfLocal (localTime tz t + (n - getDate (tz t) t) * 86400000).

(** [getDateRange(reportType, startDateParam, endDateParam)] when
    [new Date()] is [now]. The setters leave an invalid date invalid. *)
Definition getDateRange (now : Z) (reportType : string)
    (startDateParam endDateParam : option string) : option Z * option Z :=
  let startDate := Some now in
  let endDate := Some now in
  let '(startDate, endDate) :=
    if truthyStr startDateParam && truthyStr endDateParam then
      (setHours 0 0 0 0 <$> parseDate (default "" startDateParam),
       setHours 23 59 59 999 <$> parseDate (default "" endDateParam))
    else if String.eqb reportType "daily" then
      (setHours 0 0 0 0 <$> startDate, endDate)
    else if String.eqb reportType "weekly" then
      (setHours 0 0 0 0
         <$> (setDate (getDate (tz now) now - getDay (tz now) now) <$> startDate),
       endDate)
    else if String.eqb reportType "monthly" then
      (setHours 0 0 0 0 <$> (setDate 1 <$> startDate), endDate)
    else (startDate, endDate) in
  (startDate, setHours 23 59 59 999 <$> endDate).

(** [formatTimeHHMMNoSeconds(dateStr)]: of an invalid date, [getHours] and
    [getMinutes] are [NaN], which [padStart] leaves as it is. *)
Definition formatTimeHHMMNoSeconds (dateStr : option string) : string :=
  if negb (truthyStr dateStr) then ""
  else
    match parseDate (default "" dateStr) with
    | Some t => hhmm tz t
    | None => "NaN:NaN"
    end.

(** [searchParams.get(name) || undefined] *)
Definition orUndefined (p : option string) : option string :=
  if truthyStr p then p else None.

(** [param || date.toISOString().split('T')[0]]: [toISOString] throws a
    [RangeError] on an invalid date. *)
Definition dateStrOf (param : option string) (date : option Z)
  : Thrown + string :=
  if truthyStr param then inr (default "" param)
  else
    match date with
    | Some t => inr (isoDate t)
    | None => inl (ErrorWith "Invalid time value")
    end.

(** The rows of the dispatched-products worksheet. *)
Definition dispatchedRows (products : list Dispatched) : list DispatchRow :=
  ((λ p, ProductRow (d_product p) (d_quantity p) (d_createdAt p)) <$> products)
  ++ [DispatchEmptyRow;
      DispatchSummaryRow "Total Products Dispatched:"
        (foldl (λ sum p, sum + d_quantity p) 0 products)].

(** The end of both reports, in the order of the source: the record of the
    download is created, the workbook is written, the headers are built,
    and the file is answered. The result is the answer together with the
    names of the records that [prisma.reportDownload.create] has added. *)
Definition sendFile (sheetName : string) (sheet : Worksheet)
    (reportName : string) : Response * list string :=
  match createReport reportName with
  | Some e => (serverError e, [])
  | None =>
      match writeBuffer sheet with
      | Some e => (serverError e, [reportName])
      | None =>
          match newHeaders (contentDispositionOf reportName) with
          | Some e => (serverError e, [reportName])
          | None =>
              (XlsxResponse sheetName sheet (contentDispositionOf reportName),
               [reportName])
          end
      end
  end.

(** [GET(req)] at the instant [now]: the answer, and the names of the
    records of a download that have been created. Whatever is thrown
    inside [try] is answered by the [catch] block. *)
Definition GET (now : Z) (q : Query) : Response * list string :=
  let reportType := orStr (q_reportType q) "daily" in
  let startDateParam := orUndefined (q_startDate q) in
  let endDateParam := orUndefined (q_endDate q) in
  let '(startDate, endDate) :=
    getDateRange now reportType startDateParam endDateParam in
  if String.eqb reportType "processWise" then
    if negb (truthyStr (q_process q)) then
      (JsonResponse 400 "Operation/Machine is required for process-wise report.",
       [])
    else
      let operationType := default "" (q_process q) in
      match findJobs operationType startDate endDate with
      | inl e => (serverError e, [])
      | inr jobs =>
          let sheet := (worksheetRows tz jobs).1 in
          match dateStrOf startDateParam startDate with
          | inl e => (serverError e, [])
          | inr startDateStr =>
              match dateStrOf endDateParam endDate with
              | inl e => (serverError e, [])
              | inr endDateStr =>
                  sendFile "Operation Wise Report" (OperationSheet sheet)
                    (operationType +:+ "_" +:+ startDateStr +:+ "_"
                       +:+ endDateStr +:+ "_report")
              end
          end
      end
  else
    match findDispatched startDate endDate with
    | inl e => (serverError e, [])
    | inr dispatchedProducts =>
        if (length dispatchedProducts =? 0)%nat then
          (JsonResponse 404
             "No dispatched products found for the selected date range.",
           [])
        else
          sendFile "Dispatched Products Report"
            (DispatchedSheet (dispatchedRows dispatchedProducts))
            (toUpperCase (charAt0 reportType) +:+ slice1 reportType
               +:+ " Dispatched Products Report")
    end.

End Handler.

(** ** The two date-time formats

    [formatDateTimeNoMs] and [getIsoDateTimeToSecond] print the local date
    and time of a [Date]; the year is printed as it is, the other parts are
    padded to two digits. *)

Section Formats.

Variable offset : Z.

(** [d.getFullYear()], [d.getMonth() + 1] and [d.getSeconds()]; the day of
    the month is [getDate] and the hours and minutes are those of the zone. *)
Definition getFullYear (t : Z) : Z := (civilFromDays (localDay offset t)).1.1.
Definition getMonth1 (t : Z) : Z := (civilFromDays (localDay offset t)).1.2.
Definition getSeconds (t : Z) : Z := ((t + offset * 60000) `div` 1000) `mod` 60.

(** [`${y}-${pad(m)}-${pad(d)}`] and [`${pad(h)}:${pad(mi)}:${pad(s)}`] *)
Definition localDatePart (t : Z) : string :=
  pretty (getFullYear t) +:+ "-" +:+ pad2 (getMonth1 t) +:+ "-"
    +:+ pad2 (getDate offset t).

Definition localTimePart (t : Z) : string :=
  pad2 (getHours (fixedZone offset) t) +:+ ":"
    +:+ pad2 (getMinutes (fixedZone offset) t) +:+ ":" +:+ pad2 (getSeconds t).

Definition formatDateTimeNoMs (date : Z) : string :=
  localDatePart date +:+ " " +:+ localTimePart date.

Definition getIsoDateTimeToSecond (date : Z) : string :=
  localDatePart date +:+ "T" +:+ localTimePart date.

End Formats.

(** * Properties *)

(** ** Quantities *)

Definition sumZ (l : list Z) : Z := foldr Z.add 0 l.

Definition sumQuantity (rws : list Row) : Z := sumZ (row_quantity <$> rws).

(** The quantity is a non-negative integer. *)
Definition nonnegQuantity (j : Job) : Prop :=
  ∃ q, quantity j = Some q ∧ 0 ≤ q.

(** The quantity of every ON job of the group is at most [2^53]: every
    integer up to it is a double. *)
Definition onQuantitiesSafe (group : list Job) : Prop :=
  Forall (λ j, toNumber (quantity j) ≤ 2 ^ 53) (List.filter isOn group).

(** The total quantity of the ON jobs of a group. *)
Definition onQuantity (group : list Job) : Z :=
  sumZ ((λ j, toNumber (quantity j)) <$> List.filter isOn group).

(** The counter of a copy is a non-negative integer. *)
Definition nonnegRemaining (x : PairJob) : Prop :=
  ∃ q, remaining x = Some q ∧ 0 ≤ q.

(** The states in which the condition of [while] is tested. *)
Inductive iterates (tz : Z → Z) (s0 : PairState) : PairState → Prop :=
  | iterates_start : iterates tz s0 s0
  | iterates_next s onJob offJob s' :
      iterates tz s0 s →
      onJobs s !! onIdx s = Some onJob →
      offJobs s !! offIdx s = Some offJob →
      pairBody tz s onJob offJob = (s', Next) →
      iterates tz s0 s'.

Definition countersNonneg (s : PairState) : Prop :=
  Forall nonnegRemaining (onJobs s) ∧ Forall nonnegRemaining (offJobs s).

(** The counter of a copy is a non-negative integer of at most [2^53]. *)
Definition safeRemaining (x : PairJob) : Prop :=
  ∃ q, remaining x = Some q ∧ 0 ≤ q ≤ 2 ^ 53.

(** The counters are non-negative integers, those of the ON jobs of at most
    [2^53]. *)
Definition countersSafe (s : PairState) : Prop :=
  Forall safeRemaining (onJobs s) ∧ Forall nonnegRemaining (offJobs s).

(** The sum of the counters of a list of copies. *)
Definition pending (l : list PairJob) : Z :=
  sumZ ((λ x, toNumber (remaining x)) <$> l).

(** What is still to be reported for the ON jobs: the rows pushed so far and
    the counters from [onIdx] on. *)
Definition accounted (s : PairState) : Z :=
  sumQuantity (rows s) + pending (drop (onIdx s) (onJobs s)).

(** The row reports the ON job [j]: its labels, its date and clock time,
    and a positive quantity that is at most the quantity of [j]. *)
Definition reportsOnJob (tz : Z → Z) (j : Job) (r : Row) : Prop :=
  row_productId r = productLabel j ∧
  row_machineNumber r = machineNumberOf j ∧
  row_date r = isoDate (onTimeOf j) ∧
  row_onTime r = hhmm tz (onTimeOf j) ∧
  0 < row_quantity r ≤ toNumber (quantity j).

(** The counter of a copy has not grown past the quantity of its job. *)
Definition withinQuantity (x : PairJob) : Prop :=
  toNumber (remaining x) ≤ toNumber (quantity (job x)).

(** What holds in every state of the loop, whatever the quantities are. *)
Definition pairingInv (tz : Z → Z) (ons offs : list Job) (s : PairState) : Prop :=
  job <$> onJobs s = ons ∧ job <$> offJobs s = offs ∧
  Forall withinQuantity (onJobs s) ∧
  Forall (λ r, ∃ j, j ∈ ons ∧ reportsOnJob tz j r) (rows s).

(** ** Vocabulary of the aggregation *)

(** The quantities of the rows are non-negative integers, and their sum is
    at most [2^53]: whatever part of them the code adds, in whatever order,
    the sum of the doubles is the sum of the integers. *)
Definition safeRows (rws : list Row) : Prop :=
  Forall (λ r, 0 ≤ row_quantity r) rws ∧ sumQuantity rws ≤ 2 ^ 53.

(** The fields of a row other than its quantity. *)
Definition rowKey (r : Row)
  : string * string * string * string * string * option Z :=
  (row_productId r, row_machineNumber r, row_date r, row_onTime r,
   row_offTime r, row_totalTime r).

Definition withQuantity (r : Row) (q : Z) : Row :=
  {| row_productId := row_productId r;
     row_quantity := q;
     row_machineNumber := row_machineNumber r;
     row_date := row_date r;
     row_onTime := row_onTime r;
     row_offTime := row_offTime r;
     row_totalTime := row_totalTime r |}.

(** The string has no ["|"]. *)
Fixpoint noBar (s : string) : bool :=
  match s with
  | String c s' => negb (Ascii.eqb c "|") && noBar s'
  | EmptyString => true
  end.

(** The fields that follow [productId] in the key hold no separator. Every
    row that the pairing pushes is of this kind: the machine number is made
    of digits, the date of digits and signs, the times of digits and a
    colon. *)
Definition wfRow (r : Row) : Prop :=
  noBar (row_machineNumber r) = true ∧ noBar (row_date r) = true ∧
  noBar (row_onTime r) = true ∧ noBar (row_offTime r) = true.

(** For every key, the first element that has it, in the order of the
    list. *)
Fixpoint firstBy {A} `{EqDecision K} (key : A → K) (l : list A) : list A :=
  match l with
  | [] => []
  | x :: l' => x :: filter (λ y, key y ≠ key x) (firstBy key l')
  end.

(** The elements of a list in the order of their first occurrence. *)
Definition firstSeen `{EqDecision A} (l : list A) : list A := firstBy id l.

(** The total quantity of the rows that have the key [k]. *)
Definition quantityOf `{EqDecision K} (key : Row → K) (k : K) (l : list Row) : Z :=
  sumZ (row_quantity <$> filter (λ r, key r = k) l).

(** ** Vocabulary of the store *)

(** The arrays of a state on the store, read as arrays of copies. *)
Definition viewState (s : HeapState) : PairState :=
  {| onJobs := pairJobAt (store s) <$> onRefs s;
     offJobs := pairJobAt (store s) <$> offRefs s;
     onIdx := hOnIdx s; offIdx := hOffIdx s; rows := hRows s |}.

(** ** Example data *)

(** Local time is UTC. *)
Definition utc : Z → Z := λ _, 0.

(** A job of product 7 on machine 3, with its relations. *)
Definition exJob (st : string) (q : Z) (created : Z) (updated : option Z) : Job :=
  {| productId := "7"; machineId := "3"; state := st; quantity := Some q;
     createdAt := Some created; updatedAt := updated;
     product := Some {| product_name := Some "Widget" |};
     machine := Some {| machine_name := Some "CUTTING MC/1 #4" |} |}.

(** A job whose product and machine could not be resolved, of quantity 0. *)
Definition exOrphan : Job :=
  {| productId := "7"; machineId := "3"; state := "ON"; quantity := Some 0;
     createdAt := Some 1705309200000; updatedAt := None;
     product := None; machine := None |}.

(** 2024-01-15 09:00:00 UTC. *)
Definition exNine : Z := 1705309200000.

Definition exRow (p : string) (q : Z) (off : string) (t : option Z) : Row :=
  {| row_productId := p; row_quantity := q; row_machineNumber := "4";
     row_date := "2024-01-15"; row_onTime := "09:00"; row_offTime := off;
     row_totalTime := t |}.

(** ** Vocabulary of the grouping *)

(** The string has no ["_"]. *)
Fixpoint noUnderscore (s : string) : bool :=
  match s with
  | String c s' => negb (Ascii.eqb c "_") && noUnderscore s'
  | EmptyString => true
  end.

(** The jobs that the grouping keeps, and among them those of one key. *)
Definition resolvedJobs (jobs : list Job) : list Job :=
  List.filter resolved jobs.

Definition jobsOfKey (k : string) (jobs : list Job) : list Job :=
  filter (λ j, jobKey j = k) (resolvedJobs jobs).

(** ** Vocabulary of the machine number and of the handler *)

(** The last character of the string is a digit. *)
Fixpoint endsWithDigit (s : string) : bool :=
  match s with
  | EmptyString => false
  | String c s' =>
      match s' with
      | EmptyString => isDigit c
      | String _ _ => endsWithDigit s'
      end
  end.

(** The string has no space. *)
Fixpoint noSpace (s : string) : bool :=
  match s with
  | String c s' => negb (Ascii.eqb c " ") && noSpace s'
  | EmptyString => true
  end.

(** The instant is a midnight, or the last millisecond of a day, of the
    zone [offset] minutes east of UTC. *)
Definition localMidnight (offset t : Z) : Prop :=
  (t + offset * 60000) `mod` 86400000 = 0.

Definition localDayEnd (offset t : Z) : Prop :=
  (t + offset * 60000) `mod` 86400000 = 86399999.

(** The rows of the dispatched products are non-negative integers with a
    sum of at most [2^53]: the additions of the total are those of [Z]. *)
Definition safeDispatched (products : list Dispatched) : Prop :=
  Forall (λ p, 0 ≤ d_quantity p) products ∧
  sumZ (d_quantity <$> products) ≤ 2 ^ 53.

(** An ON job of quantity [2^53 + 2], which is a double, and an OFF job of
    quantity 1. *)
Definition exLargeGroup : list Job :=
  [exJob "ON" 9007199254740994 exNine None;
   exJob "OFF" 1 (exNine + 60000) None].

(** A parser that knows two dates (midnight UTC), an uppercase for ["d"],
    a store with one job and no dispatched product that takes every record
    and writes every workbook, and headers that refuse a line feed. *)
Definition exParse (s : string) : option Z :=
  if String.eqb s "2024-01-15" then Some 1705276800000
  else if String.eqb s "2024-01-17" then Some 1705449600000
  else None.

Definition exUpper (s : string) : string :=
  if String.eqb s "d" then "D" else s.

Definition exFindJobs (operationType : string) (startDate endDate : option Z)
  : Thrown + list Job := inr [exJob "ON" 2 exNine None].

Definition exNoDispatched (startDate endDate : option Z)
  : Thrown + list Dispatched := inr [].

Definition exCreate (reportName : string) : option Thrown := None.

Definition exWrite (sheet : Worksheet) : option Thrown := None.

Fixpoint hasLineFeed (s : string) : bool :=
  match s with
  | String c s' => Ascii.eqb c (ascii_of_nat 10) || hasLineFeed s'
  | EmptyString => false
  end.

Definition exHeaders (value : string) : option Thrown :=
  if hasLineFeed value then Some (ErrorWith "Invalid header value") else None.

Definition exProcessQuery : Query :=
  {| q_reportType := Some "processWise"; q_startDate := None;
     q_endDate := None; q_process := Some "CUTTING" |}.

Definition exDailyQuery : Query :=
  {| q_reportType := None; q_startDate := None; q_endDate := None;
     q_process := None |}.

(** A zone that moves its clocks forward by one hour on 2024-03-10: local
    time is 300 minutes behind UTC up to 07:00 UTC (02:00 local time) and
    240 minutes behind from then on. Local times before 03:00 of that day,
    the skipped hour among them, are read in the first offset. *)
Definition exSpringZone (t : Z) : Z :=
  if t <? 1710054000000 then -300 else -240.

Definition exSpringZoneLocal (x : Z) : Z :=
  if x <? 1710039600000 then -300 else -240.

(** The name of the operation holds a line feed. *)
Definition exLineFeedQuery : Query :=
  {| q_reportType := Some "processWise"; q_startDate := Some "2024-01-15";
     q_endDate := Some "2024-01-17";
     q_process := Some ("CUT" +:+ String (ascii_of_nat 10) "TING") |}.

(** ** Doubles *)

Section DoubleProofs.

Lemma roundDouble_small z : Z.abs z ≤ 2 ^ 53 → roundDouble z = z.
Proof.
  intros H. unfold roundDouble.
  by destruct (Z.leb_spec (Z.abs z) (2 ^ 53)); [|lia].
Qed.

(** The nearest double of a large positive integer [x]: a multiple of the
    power of two that leaves 53 bits, next to the quotient of [x]. *)
Lemma roundDouble_large x :
  2 ^ 53 < x →
  let e := Z.log2 x - 52 in
  0 < e ∧ 0 < 2 ^ e ∧
  ∃ k, roundDouble x = k * 2 ^ e ∧
       x `div` 2 ^ e ≤ k ≤ x `div` 2 ^ e + 1 ∧
       (x `mod` 2 ^ e = 0 → k = x `div` 2 ^ e) ∧ 0 < x `div` 2 ^ e.
Proof.
  intros Hx e.
  assert (53 ≤ Z.log2 x) as Hlog by (apply Z.log2_le_pow2; lia).
  assert (0 < e) as He by (unfold e; lia).
  assert (0 < 2 ^ e) as Hpow by (apply Z.pow_pos_nonneg; lia).
  assert (2 ^ e ≤ x) as Hle.
  { pose proof (Z.log2_spec x ltac:(lia)) as [Hlo _].
    etrans; [|exact Hlo]. apply Z.pow_le_mono_r; unfold e; lia. }
  assert (0 < x `div` 2 ^ e) as Hq by (apply Z.div_str_pos; lia).
  split_and!; try done.
  unfold roundDouble. rewrite Z.abs_eq by lia.
  destruct (Z.leb_spec x (2 ^ 53)); [lia|]. fold e. cbv zeta.
  rewrite Z.sgn_pos by lia. rewrite Z.mul_1_l.
  pose proof (Z.mod_pos_bound x (2 ^ e) Hpow).
  eexists. split; [reflexivity|].
  repeat case_match; split_and!; try lia.
Qed.

Lemma roundDouble_pos x : 0 < x → 0 < roundDouble x.
Proof.
  intros Hx. destruct (Z.le_gt_cases x (2 ^ 53)).
  - rewrite roundDouble_small by lia. done.
  - destruct (roundDouble_large x) as (He & Hpow & k & -> & Hk & _ & Hq); [lia|].
    apply Z.mul_pos_pos; lia.
Qed.

(** Rounding does not go past a double that is above. *)
Lemma roundDouble_le_double x a :
  0 ≤ x ≤ a → roundDouble a = a → roundDouble x ≤ a.
Proof.
  intros [Hx Hxa] Ha. destruct (Z.le_gt_cases x (2 ^ 53)) as [Hs|Hl].
  - rewrite roundDouble_small by lia. done.
  - destruct (roundDouble_large x Hl) as (He & Hpow & k & -> & Hk & Hexact & Hq).
    destruct (roundDouble_large a ltac:(lia)) as (Hea & Hpowa & ka & Hka & _).
    rewrite Ha in Hka.
    set (e := Z.log2 x - 52) in *. set (ea := Z.log2 a - 52) in *.
    assert (e ≤ ea) as Hee
      by (unfold e, ea; pose proof (Z.log2_le_mono x a); lia).
    assert (∃ m, a = m * 2 ^ e) as [m Hm].
    { exists (ka * 2 ^ (ea - e)). rewrite <-Z.mul_assoc, <-Z.pow_add_r by lia.
      by replace (ea - e + e) with ea by lia. }
    pose proof (Z.div_mod x (2 ^ e) ltac:(lia)) as Hdm.
    pose proof (Z.mod_pos_bound x (2 ^ e) Hpow) as Hr.
    destruct (decide (x `mod` 2 ^ e = 0)) as [H0|Hn0].
    + rewrite (Hexact H0). lia.
    + assert (x `div` 2 ^ e < m) by nia.
      rewrite Hm. apply Z.mul_le_mono_nonneg_r; lia.
Qed.

Lemma jsSub_exact a b : Z.abs (a - b) ≤ 2 ^ 53 → jsSub a b = a - b.
Proof.
  intros H. unfold jsSub. case_match; [by apply roundDouble_small|done].
Qed.

Lemma jsSub_diag a : jsSub a a = 0.
Proof. rewrite jsSub_exact; lia. Qed.

Lemma jsSub_0_r a : jsSub a 0 = a.
Proof.
  unfold jsSub, isDouble. rewrite Z.sub_0_r. case_match eqn:Hd; [|done].
  by apply andb_prop in Hd as [Ha%Z.eqb_eq _].
Qed.

Lemma jsSub_pos a b : b < a → 0 < jsSub a b.
Proof. intros H. unfold jsSub. case_match; [apply roundDouble_pos|]; lia. Qed.

Lemma jsSub_le a b : 0 ≤ b ≤ a → jsSub a b ≤ a.
Proof.
  intros H. unfold jsSub, isDouble. case_match eqn:Hd; [|lia].
  apply andb_prop in Hd as [Ha%Z.eqb_eq _].
  apply roundDouble_le_double; [lia|done].
Qed.

(** After [pairQty = Math.min(a, b)] is taken from [a], what is left is
    zero exactly when [a] was the smaller. *)
Lemma jsSub_min a b :
  0 ≤ jsSub a (Z.min a b) ∧ (jsSub a (Z.min a b) = 0 ↔ a ≤ b).
Proof.
  destruct (Z.le_gt_cases a b).
  - rewrite Z.min_l, jsSub_diag by lia. lia.
  - rewrite Z.min_r by lia. pose proof (jsSub_pos a b). lia.
Qed.

End DoubleProofs.

Section PairingProofs.

Variable tz : Z → Z.

Lemma sumZ_app l1 l2 : sumZ (l1 ++ l2) = sumZ l1 + sumZ l2.
Proof. induction l1 as [|x l1 IH]; simpl; lia. Qed.

Lemma sumQuantity_app r1 r2 :
  sumQuantity (r1 ++ r2) = sumQuantity r1 + sumQuantity r2.
Proof. unfold sumQuantity. by rewrite fmap_app, sumZ_app. Qed.

Lemma pending_cons x l : pending (x :: l) = toNumber (remaining x) + pending l.
Proof. reflexivity. Qed.

(** *** Shape of a run of the body *)

Lemma pairBody_lengths s a b s' fl :
  pairBody tz s a b = (s', fl) →
  length (onJobs s') = length (onJobs s) ∧
  length (offJobs s') = length (offJobs s).
Proof.
  unfold pairBody. intros H.
  repeat case_match; simplify_eq/=; by rewrite !length_insert.
Qed.

Lemma pairBody_Next_advances s a b s' :
  pairBody tz s a b = (s', Next) →
  (onIdx s ≤ onIdx s' ∧ offIdx s ≤ offIdx s' ∧
   onIdx s + offIdx s < onIdx s' + offIdx s')%nat.
Proof.
  unfold pairBody. intros H.
  repeat case_match; simplify_eq/=; lia.
Qed.

(** The loop ends within [fuel] tests whenever [fuel] exceeds the number of
    positions that the two indices can still move. *)
Lemma pairLoop_fuel fuel s :
  ((length (onJobs s) - onIdx s) + (length (offJobs s) - offIdx s) < fuel)%nat →
  (pairLoop tz fuel s).2 ≠ OutOfFuel.
Proof.
  revert s. induction fuel as [|fuel IH]; intros s Hlt; [lia|].
  simpl.
  destruct (onJobs s !! onIdx s) as [a|] eqn:Ha; [|done].
  destruct (offJobs s !! offIdx s) as [b|] eqn:Hb; [|done].
  destruct (pairBody tz s a b) as [s' [|]] eqn:Hbody; [|done].
  apply IH.
  apply lookup_lt_Some in Ha, Hb.
  destruct (pairBody_lengths _ _ _ _ _ Hbody) as [-> ->].
  apply pairBody_Next_advances in Hbody. lia.
Qed.

Lemma runPairLoop_terminates group :
  (runPairLoop tz group).2 ≠ OutOfFuel.
Proof. unfold runPairLoop, pairFuel. apply pairLoop_fuel. lia. Qed.

(** *** The body on counters that are non-negative integers *)

Lemma isZero_Some z : isZero (Some z) = bool_decide (z = 0).
Proof. by destruct z. Qed.

Lemma pairBody_nonneg s a b qa qb :
  remaining a = Some qa → remaining b = Some qb → 0 ≤ qa → 0 ≤ qb →
  pairBody tz s a b =
    ({| onJobs := <[onIdx s := {| job := job a; remaining := Some (jsSub qa (Z.min qa qb)) |}]> (onJobs s);
        offJobs := <[offIdx s := {| job := job b; remaining := Some (jsSub qb (Z.min qa qb)) |}]> (offJobs s);
        onIdx := if bool_decide (qa ≤ qb) then S (onIdx s) else onIdx s;
        offIdx := if bool_decide (qb ≤ qa) then S (offIdx s) else offIdx s;
        rows := if 0 <? Z.min qa qb
                then rows s ++ [matchedRow tz a b (Z.min qa qb)] else rows s |},
     Next).
Proof.
  intros Ha Hb Hqa Hqb. destruct a as [ja ra], b as [jb rb]; simpl in *; subst.
  unfold pairBody, mathMin, subRemaining; cbn -[isZero Z.min jsSub].
  pose proof (jsSub_min qa qb) as [_ Ea].
  pose proof (jsSub_min qb qa) as [_ Eb]. rewrite (Z.min_comm qb qa) in Eb.
  destruct (Z.ltb_spec 0 (Z.min qa qb)) as [Hpos|Hzero]; cbn -[isZero Z.min jsSub];
    rewrite !isZero_Some.
  - repeat case_bool_decide; simpl; try lia; reflexivity.
  - assert (Z.min qa qb = 0) as E0 by lia. rewrite E0 in *.
    rewrite !jsSub_0_r in *.
    repeat case_bool_decide; simpl; try lia; reflexivity.
Qed.

Lemma Forall_insert_nonneg (l : list PairJob) i x :
  Forall nonnegRemaining l → nonnegRemaining x →
  Forall nonnegRemaining (<[i := x]> l).
Proof. intros Hl Hx. by apply Forall_insert. Qed.

Lemma pairBody_step s a b :
  countersNonneg s →
  onJobs s !! onIdx s = Some a → offJobs s !! offIdx s = Some b →
  ∃ s', pairBody tz s a b = (s', Next) ∧
    countersNonneg s' ∧
    job <$> onJobs s' = job <$> onJobs s ∧
    job <$> offJobs s' = job <$> offJobs s ∧
    (remaining <$> onJobs s' !! onIdx s = Some (Some 0) ∨
     remaining <$> offJobs s' !! offIdx s = Some (Some 0)) ∧
    (onIdx s < onIdx s' ∨ offIdx s < offIdx s')%nat.
Proof.
  intros [Hon Hoff] Ha Hb.
  destruct (proj1 (Forall_lookup _ _) Hon _ _ Ha) as (qa & Hra & Hqa).
  destruct (proj1 (Forall_lookup _ _) Hoff _ _ Hb) as (qb & Hrb & Hqb).
  eexists. split; [by apply pairBody_nonneg|]. simpl.
  pose proof (lookup_lt_Some _ _ _ Ha) as Hla.
  pose proof (lookup_lt_Some _ _ _ Hb) as Hlb.
  pose proof (jsSub_min qa qb) as [Hna Hza].
  pose proof (jsSub_min qb qa) as [Hnb Hzb]. rewrite (Z.min_comm qb qa) in Hnb, Hzb.
  split; [|split; [|split; [|split]]].
  - split; simpl; apply Forall_insert_nonneg; try done;
      eexists; (split; [reflexivity|done]).
  - rewrite list_fmap_insert. simpl. apply list_insert_id.
    by rewrite list_lookup_fmap, Ha.
  - rewrite list_fmap_insert. simpl. apply list_insert_id.
    by rewrite list_lookup_fmap, Hb.
  - destruct (Z.le_gt_cases qa qb).
    + left. rewrite list_lookup_insert_eq by done. simpl.
      do 2 f_equal. by apply Hza.
    + right. rewrite list_lookup_insert_eq by done. simpl.
      do 2 f_equal. apply Hzb. lia.
  - repeat case_bool_decide; lia.
Qed.

(** On ON counters of at most [2^53] the subtraction from the ON counter is
    the difference of [Z], and what is to be reported for the ON jobs stays
    the same. *)
Lemma pairBody_safe s a b :
  countersSafe s →
  onJobs s !! onIdx s = Some a → offJobs s !! offIdx s = Some b →
  ∃ s', pairBody tz s a b = (s', Next) ∧
    countersSafe s' ∧ accounted s' = accounted s.
Proof.
  intros [Hon Hoff] Ha Hb.
  destruct (proj1 (Forall_lookup _ _) Hon _ _ Ha) as (qa & Hra & Hqa).
  destruct (proj1 (Forall_lookup _ _) Hoff _ _ Hb) as (qb & Hrb & Hqb).
  eexists. split; [apply pairBody_nonneg; [done|done|lia|lia]|]. simpl.
  pose proof (lookup_lt_Some _ _ _ Ha) as Hla.
  pose proof (lookup_lt_Some _ _ _ Hb) as Hlb.
  pose proof (jsSub_min qb qa) as [Hnb _]. rewrite (Z.min_comm qb qa) in Hnb.
  rewrite (jsSub_exact qa) by lia.
  split.
  - split; simpl; (apply Forall_insert; [done|]);
      eexists; (split; [reflexivity|lia]).
  - unfold accounted; simpl.
    assert (sumQuantity
              (if 0 <? Z.min qa qb
               then rows s ++ [matchedRow tz a b (Z.min qa qb)] else rows s)
            = sumQuantity (rows s) + Z.min qa qb) as ->.
    { destruct (Z.ltb_spec 0 (Z.min qa qb)).
      - rewrite sumQuantity_app. unfold sumQuantity; simpl. lia.
      - lia. }
    rewrite (drop_S _ _ _ Ha), pending_cons, Hra.
    case_bool_decide.
    + rewrite drop_insert_lt by lia. simpl. lia.
    + rewrite drop_insert_ge by lia. rewrite Nat.sub_diag.
      rewrite (drop_S _ _ _ Ha). simpl. rewrite pending_cons. simpl. lia.
Qed.

Lemma pairLoop_nonneg fuel s :
  countersNonneg s →
  let r := pairLoop tz fuel s in
  countersNonneg r.1 ∧
  job <$> onJobs r.1 = job <$> onJobs s ∧ r.2 ≠ DefensiveBreak.
Proof.
  revert s. induction fuel as [|fuel IH]; intros s Hs; simpl; [done|].
  destruct (onJobs s !! onIdx s) as [a|] eqn:Ha; [|done].
  destruct (offJobs s !! offIdx s) as [b|] eqn:Hb; [|done].
  destruct (pairBody_step s a b Hs Ha Hb)
    as (s' & -> & Hs' & Hjobs & _).
  destruct (IH s' Hs') as (? & ? & ?).
  split_and!; [done|congruence|done].
Qed.

Lemma pairLoop_safe fuel s :
  countersSafe s →
  let r := pairLoop tz fuel s in
  countersSafe r.1 ∧ accounted r.1 = accounted s.
Proof.
  revert s. induction fuel as [|fuel IH]; intros s Hs; simpl; [done|].
  destruct (onJobs s !! onIdx s) as [a|] eqn:Ha; [|done].
  destruct (offJobs s !! offIdx s) as [b|] eqn:Hb; [|done].
  destruct (pairBody_safe s a b Hs Ha Hb) as (s' & -> & Hs' & Hacc).
  destruct (IH s' Hs') as (? & ?).
  split; [done|congruence].
Qed.

Lemma iterates_nonneg s0 s :
  countersNonneg s0 → iterates tz s0 s → countersNonneg s.
Proof.
  intros H0. induction 1 as [|s a b s' _ IH Ha Hb Hbody]; [done|].
  destruct (pairBody_step s a b IH Ha Hb) as (s'' & Heq & Hs' & _).
  congruence.
Qed.

(** *** Sorting and filtering keep the jobs *)

Lemma insertSorted_perm {A} (cmp : A → A → Z) x l :
  insertSorted cmp x l ≡ₚ x :: l.
Proof.
  induction l as [|y l IH]; simpl; [done|].
  case_match; [done|]. rewrite IH. apply Permutation_swap.
Qed.

Lemma sortBy_perm {A} (cmp : A → A → Z) l : sortBy cmp l ≡ₚ l.
Proof.
  induction l as [|x l IH]; simpl; [done|].
  by rewrite insertSorted_perm, IH.
Qed.

Lemma filter_perm {A} (f : A → bool) l l' :
  l ≡ₚ l' → List.filter f l ≡ₚ List.filter f l'.
Proof.
  induction 1 as [|x l l' _ IH|x y l|l l' l'' _ IH1 _ IH2]; simpl.
  - done.
  - destruct (f x); by rewrite IH.
  - destruct (f x), (f y); try done. apply Permutation_swap.
  - by etrans.
Qed.

Lemma sumZ_perm l l' : l ≡ₚ l' → sumZ l = sumZ l'.
Proof.
  induction 1 as [|x l l' _ IH|x y l|l l' l'' _ IH1 _ IH2]; simpl; lia.
Qed.

(** The sort puts the jobs in ascending order of [createdAt] and keeps the
    jobs of one instant in the order in which they came. *)
Lemma insertSorted_sorted x (l : list Job) :
  StronglySorted (λ a b, compareCreatedAt a b ≤ 0) l →
  StronglySorted (λ a b, compareCreatedAt a b ≤ 0)
    (insertSorted compareCreatedAt x l).
Proof.
  induction 1 as [|y l Hl IH Hy]; simpl.
  { repeat constructor. }
  destruct (Z.leb_spec (compareCreatedAt x y) 0) as [Hle|Hgt].
  - constructor; [by constructor|]. constructor; [done|].
    eapply Forall_impl; [exact Hy|]. unfold compareCreatedAt in *.
    intros z Hz. simpl in Hz. lia.
  - constructor; [done|]. rewrite insertSorted_perm. constructor; [|done].
    unfold compareCreatedAt in *. lia.
Qed.

Lemma sortGroup_sorted group :
  StronglySorted (λ a b, compareCreatedAt a b ≤ 0) (sortGroup group).
Proof.
  unfold sortGroup. induction group as [|x group IH]; simpl; [constructor|].
  by apply insertSorted_sorted.
Qed.

Lemma insertSorted_stable (t : Z) x (l : list Job) :
  StronglySorted (λ a b, compareCreatedAt a b ≤ 0) l →
  List.filter (λ j, newDate (createdAt j) =? t) (insertSorted compareCreatedAt x l)
  = List.filter (λ j, newDate (createdAt j) =? t) (x :: l).
Proof.
  induction 1 as [|y l Hl IH Hy]; [done|]. cbn [insertSorted].
  destruct (Z.leb_spec (compareCreatedAt x y) 0) as [Hle|Hgt]; [done|].
  cbn [List.filter] in *. rewrite IH.
  destruct (Z.eqb_spec (newDate (createdAt x)) t) as [Hx|Hx]; [|done].
  destruct (Z.eqb_spec (newDate (createdAt y)) t) as [Hy'|Hy']; [|done].
  unfold compareCreatedAt in Hgt. lia.
Qed.

Lemma sortGroup_stable (t : Z) group :
  List.filter (λ j, newDate (createdAt j) =? t) (sortGroup group)
  = List.filter (λ j, newDate (createdAt j) =? t) group.
Proof.
  unfold sortGroup. induction group as [|x group IH]; [done|].
  cbn [sortBy]. rewrite insertSorted_stable by apply sortGroup_sorted.
  cbn [List.filter]. by rewrite IH.
Qed.

Lemma Forall_filter_bool {A} (P : A → Prop) (f : A → bool) l :
  Forall P l → Forall P (List.filter f l).
Proof.
  induction 1 as [|x l Hx _ IH]; simpl; [done|].
  destruct (f x); [by constructor|done].
Qed.

Lemma insertSorted_least x (l : list Job) :
  Forall (λ z, compareCreatedAt x z ≤ 0) l →
  insertSorted compareCreatedAt x l = x :: l.
Proof.
  destruct 1 as [|y l Hy _]; [done|]. simpl.
  by destruct (Z.leb_spec (compareCreatedAt x y) 0); [|lia].
Qed.

Lemma filter_insertSorted (f : Job → bool) x (l : list Job) :
  StronglySorted (λ a b, compareCreatedAt a b ≤ 0) l →
  List.filter f (insertSorted compareCreatedAt x l)
  = if f x then insertSorted compareCreatedAt x (List.filter f l)
    else List.filter f l.
Proof.
  induction 1 as [|y l Hl IH Hy]; cbn [insertSorted List.filter].
  { by destruct (f x). }
  destruct (Z.leb_spec (compareCreatedAt x y) 0) as [Hle|Hgt].
  - cbn [List.filter]. destruct (f x); [|done].
    symmetry. apply insertSorted_least.
    assert (Forall (λ z, compareCreatedAt x z ≤ 0) (y :: l)) as Hall.
    { constructor; [done|]. eapply Forall_impl; [exact Hy|].
      unfold compareCreatedAt in *. intros z Hz. simpl in Hz. lia. }
    change (Forall (λ z, compareCreatedAt x z ≤ 0) (List.filter f (y :: l))).
    by apply Forall_filter_bool.
  - cbn [List.filter]. rewrite IH. destruct (f y), (f x); try done.
    cbn [insertSorted].
    by destruct (Z.leb_spec (compareCreatedAt x y) 0); [lia|].
Qed.

(** The ON jobs and the OFF jobs of the sorted group are the ON jobs and the
    OFF jobs of the group, each sorted. *)
Lemma filter_sortGroup (f : Job → bool) group :
  List.filter f (sortGroup group) = sortGroup (List.filter f group).
Proof.
  unfold sortGroup. induction group as [|x group IH]; [done|].
  cbn [sortBy List.filter].
  rewrite filter_insertSorted by apply sortGroup_sorted.
  rewrite IH. by destruct (f x).
Qed.

Lemma onQuantity_sortGroup group :
  onQuantity (sortGroup group) = onQuantity group.
Proof.
  unfold onQuantity, sortGroup. apply sumZ_perm, fmap_Permutation, filter_perm,
    sortBy_perm.
Qed.

Lemma withRemaining_nonneg (l : list Job) :
  Forall nonnegQuantity l → Forall nonnegRemaining (withRemaining <$> l).
Proof. intros H. apply Forall_fmap. eapply Forall_impl; [done|]. by intros j Hj. Qed.

Lemma initPair_nonneg group :
  Forall nonnegQuantity group → countersNonneg (initPair group).
Proof.
  intros Hg.
  assert (Forall nonnegQuantity (sortGroup group)) as Hs.
  { unfold sortGroup. by rewrite sortBy_perm. }
  split; simpl; by apply withRemaining_nonneg, Forall_filter_bool.
Qed.

Lemma safeRemaining_nonneg x : safeRemaining x → nonnegRemaining x.
Proof. intros (q & ? & ?). exists q. split; [done|lia]. Qed.

Lemma initPair_safe group :
  Forall nonnegQuantity group → onQuantitiesSafe group →
  countersSafe (initPair group).
Proof.
  intros Hg Hon. destruct (initPair_nonneg _ Hg) as [_ Hoff].
  split; [|done]. simpl.
  assert (Forall nonnegQuantity (List.filter isOn (sortGroup group))) as Hn.
  { apply Forall_filter_bool. unfold sortGroup. by rewrite sortBy_perm. }
  assert (Forall (λ j, toNumber (quantity j) ≤ 2 ^ 53)
            (List.filter isOn (sortGroup group))) as Hs.
  { unfold onQuantitiesSafe in Hon.
    by rewrite (filter_perm isOn _ _ (sortBy_perm compareCreatedAt group)). }
  apply Forall_fmap.
  eapply Forall_impl; [apply Forall_and; split; [exact Hn|exact Hs]|].
  intros j [(q & Hq & Hpos) Hle]. exists q. simpl in *.
  rewrite Hq in Hle. simpl in Hle. split; [done|lia].
Qed.

Lemma accounted_initPair group :
  accounted (initPair group) = onQuantity group.
Proof.
  unfold accounted, pending; simpl. rewrite <-onQuantity_sortGroup.
  rewrite drop_0, <-list_fmap_compose. reflexivity.
Qed.

Lemma unmatchedRows_sum l :
  Forall nonnegRemaining l → sumQuantity (unmatchedRows tz l) = pending l.
Proof.
  induction 1 as [|x l (q & Hq & Hpos) _ IH]; [done|].
  rewrite pending_cons. simpl. rewrite Hq. simpl.
  destruct (Z.ltb_spec 0 q).
  - change (sumQuantity (unmatchedRow tz x :: unmatchedRows tz l))
      with (toNumber (remaining x) + sumQuantity (unmatchedRows tz l)).
    rewrite IH, Hq. reflexivity.
  - rewrite IH. lia.
Qed.

(** ** Conservation of the ON quantity *)

Lemma reconcileGroup_total group :
  Forall nonnegQuantity group → onQuantitiesSafe group →
  sumQuantity (reconcileGroup tz group) = onQuantity group.
Proof.
  intros Hg Hsafe. unfold reconcileGroup, runPairLoop.
  pose proof (pairLoop_safe (pairFuel (initPair group)) _
                (initPair_safe _ Hg Hsafe)) as ([Hon _] & Hacc).
  cbv zeta in Hon, Hacc.
  rewrite sumQuantity_app, unmatchedRows_sum.
  - rewrite <-accounted_initPair, <-Hacc. reflexivity.
  - apply Forall_drop. eapply Forall_impl; [exact Hon|].
    apply safeRemaining_nonneg.
Qed.

(** C1, as amended. For a group whose event quantities are all non-negative
    integers, those of the ON events of at most [2^53]
    (9007199254740992), the quantities of the rows that the reconciler
    pushes for the group (the rows of the pairs and the rows of the
    unmatched ON jobs) add up to the total quantity of the ON jobs of the
    group; whatever the OFF jobs have in surplus is in no row. *)
Theorem quantity_conservation group :
  Forall nonnegQuantity group →
  Forall (λ j, toNumber (quantity j) ≤ 2 ^ 53) (List.filter isOn group) →
  sumQuantity (reconcileGroup tz group) = onQuantity group.
Proof. apply reconcileGroup_total. Qed.

(** ** The defensive break *)

(** C3. For a group whose event quantities are all non-negative integers:
    the loop ends because its condition becomes false (it neither runs out
    of steps nor takes the [break] branch), and in every state in which the
    condition holds the body leaves one of the two counters [remaining] at
    zero and moves one of the two indices forward. *)
Theorem pairing_never_breaks group :
  Forall nonnegQuantity group →
  (runPairLoop tz group).2 = CondFalse ∧
  ∀ s onJob offJob,
    iterates tz (initPair group) s →
    onJobs s !! onIdx s = Some onJob →
    offJobs s !! offIdx s = Some offJob →
    ∃ s', pairBody tz s onJob offJob = (s', Next) ∧
      (remaining <$> onJobs s' !! onIdx s = Some (Some 0) ∨
       remaining <$> offJobs s' !! offIdx s = Some (Some 0)) ∧
      (onIdx s < onIdx s' ∨ offIdx s < offIdx s')%nat.
Proof.
  intros Hg. pose proof (initPair_nonneg _ Hg) as H0. split.
  - pose proof (runPairLoop_terminates group) as Hfuel.
    pose proof (pairLoop_nonneg (pairFuel (initPair group)) _ H0)
      as (_ & _ & Hbreak).
    unfold runPairLoop in *. cbv zeta in Hbreak.
    destruct (pairLoop tz _ _).2; congruence.
  - intros s a b Hit Ha Hb.
    destruct (pairBody_step s a b (iterates_nonneg _ _ H0 Hit) Ha Hb)
      as (s' & Hbody & _ & _ & _ & Hzero & Hadv).
    by exists s'.
Qed.

(** ** Rows come from ON jobs only *)

Lemma pairBody_fields s a b s' fl :
  pairBody tz s a b = (s', fl) →
  let q := mathMin (remaining a) (remaining b) in
  onJobs s' = <[onIdx s := if 0 <? q then subRemaining a q else a]> (onJobs s) ∧
  offJobs s' = <[offIdx s := if 0 <? q then subRemaining b q else b]> (offJobs s) ∧
  rows s' = (if 0 <? q then rows s ++ [matchedRow tz a b q] else rows s).
Proof.
  unfold pairBody. intros H. cbv zeta.
  repeat case_match; simplify_eq/=; done.
Qed.

Lemma matchedRow_reports a b q :
  0 < q → q ≤ toNumber (remaining a) → withinQuantity a →
  reportsOnJob tz (job a) (matchedRow tz a b q).
Proof. unfold reportsOnJob, withinQuantity. simpl. intros. split_and!; try done; lia. Qed.

Lemma pairBody_inv ons offs s a b s' fl :
  pairingInv tz ons offs s →
  onJobs s !! onIdx s = Some a → offJobs s !! offIdx s = Some b →
  pairBody tz s a b = (s', fl) →
  pairingInv tz ons offs s'.
Proof.
  intros (Hon & Hoff & Hle & Hrows) Ha Hb Hbody.
  destruct (pairBody_fields _ _ _ _ _ Hbody) as (E1 & E2 & E3).
  unfold pairingInv. rewrite E1, E2, E3. clear E1 E2 E3.
  assert (withinQuantity a) as Hwa by (by eapply Forall_lookup_1).
  assert (job a ∈ ons) as Hin.
  { rewrite <-Hon. apply list_elem_of_fmap. exists a. split; [done|].
    by eapply list_elem_of_lookup_2. }
  rewrite !list_fmap_insert.
  destruct (Z.ltb_spec 0 (mathMin (remaining a) (remaining b))) as [Hq|Hq].
  - simpl. split_and!.
    + rewrite <-Hon. apply list_insert_id. by rewrite list_lookup_fmap, Ha.
    + rewrite <-Hoff. apply list_insert_id. by rewrite list_lookup_fmap, Hb.
    + apply Forall_insert; [done|]. unfold withinQuantity in *. simpl.
      pose proof (jsSub_le (toNumber (remaining a))
                    (mathMin (remaining a) (remaining b))) as Hsub.
      unfold mathMin in *. lia.
    + apply Forall_app. split; [done|]. apply Forall_singleton.
      exists (job a). split; [done|]. apply matchedRow_reports; [done| |done].
      unfold mathMin. lia.
  - split_and!; try done.
    + rewrite <-Hon. apply list_insert_id. by rewrite list_lookup_fmap, Ha.
    + rewrite <-Hoff. apply list_insert_id. by rewrite list_lookup_fmap, Hb.
    + by apply Forall_insert.
Qed.

Lemma pairLoop_inv ons offs fuel s :
  pairingInv tz ons offs s → pairingInv tz ons offs (pairLoop tz fuel s).1.
Proof.
  revert s. induction fuel as [|fuel IH]; intros s Hs; simpl; [done|].
  destruct (onJobs s !! onIdx s) as [a|] eqn:Ha; [|done].
  destruct (offJobs s !! offIdx s) as [b|] eqn:Hb; [|done].
  destruct (pairBody tz s a b) as [s' fl] eqn:Hbody.
  pose proof (pairBody_inv _ _ _ _ _ _ _ Hs Ha Hb Hbody).
  destruct fl; [by apply IH|done].
Qed.

Lemma initPair_inv group :
  pairingInv tz (List.filter isOn (sortGroup group))
    (List.filter isOff (sortGroup group)) (initPair group).
Proof.
  unfold pairingInv; simpl. rewrite <-!list_fmap_compose.
  split_and!; try apply list_fmap_id; [|done].
  apply Forall_fmap, Forall_true. intros j. unfold withinQuantity. simpl. lia.
Qed.

Lemma unmatchedRows_report l r :
  Forall withinQuantity l → r ∈ unmatchedRows tz l →
  ∃ x, x ∈ l ∧ reportsOnJob tz (job x) r ∧ row_offTime r = "".
Proof.
  induction 1 as [|x l Hx _ IH]; simpl; [by intros ?%elem_of_nil|].
  destruct (Z.ltb_spec 0 (toNumber (remaining x))) as [Hq|Hq].
  - intros [->|Hr]%elem_of_cons.
    + exists x. split; [left|]. by unfold reportsOnJob, withinQuantity in *.
    + destruct (IH Hr) as (y & ? & ?). exists y. split; [by right|done].
  - intros Hr. destruct (IH Hr) as (y & ? & ?). exists y. split; [by right|done].
Qed.

Lemma elem_of_filter_sortGroup f (j : Job) group :
  j ∈ List.filter f (sortGroup group) → j ∈ group ∧ f j = true.
Proof.
  rewrite list_elem_of_In, filter_In, <-list_elem_of_In.
  unfold sortGroup. by rewrite sortBy_perm.
Qed.

Lemma reconcileGroup_reports group r :
  r ∈ reconcileGroup tz group →
  ∃ j, j ∈ group ∧ isOn j = true ∧ reportsOnJob tz j r.
Proof.
  unfold reconcileGroup, runPairLoop.
  pose proof (pairLoop_inv _ _ (pairFuel (initPair group)) _ (initPair_inv group))
    as (Hon & _ & Hle & Hrows).
  intros [Hr|Hr]%elem_of_app.
  - destruct (proj1 (Forall_forall _ _) Hrows _ Hr) as (j & Hj & Hrep).
    apply elem_of_filter_sortGroup in Hj as [? ?]. by exists j.
  - apply unmatchedRows_report in Hr as (x & Hx & Hrep & _);
      [|by apply Forall_drop].
    assert (job x ∈ List.filter isOn (sortGroup group)) as Hj.
    { rewrite <-Hon. apply list_elem_of_fmap. exists x. split; [done|].
      by eapply subseteq_drop. }
    apply elem_of_filter_sortGroup in Hj as [? ?]. by exists (job x).
Qed.

Lemma reconcileGroup_no_on group :
  List.filter isOn group = [] → reconcileGroup tz group = [].
Proof.
  intros Hnone.
  assert (List.filter isOn (sortGroup group) = []) as Hs.
  { apply Permutation_nil. rewrite <-Hnone. symmetry.
    apply filter_perm. unfold sortGroup. apply sortBy_perm. }
  unfold reconcileGroup, runPairLoop, pairFuel, initPair. rewrite Hs. reflexivity.
Qed.

(** *** Two small groups, run with any jobs of the given states and quantities *)

Lemma reconcile_on2_off5 jon joff :
  state jon = "ON" → state joff = "OFF" →
  quantity jon = Some 2 → quantity joff = Some 5 →
  reconcileGroup tz [jon; joff]
  = [matchedRow tz (withRemaining jon) (withRemaining joff) 2].
Proof.
  intros Hs1 Hs2 Hq1 Hq2.
  unfold reconcileGroup, runPairLoop, pairFuel, initPair.
  rewrite !filter_sortGroup.
  assert (List.filter isOn [jon; joff] = [jon] ∧
          List.filter isOff [jon; joff] = [joff]) as [-> ->].
  { unfold isOn, isOff; simpl. rewrite Hs1, Hs2. done. }
  cbn [sortGroup sortBy insertSorted fmap list_fmap length Nat.add pairLoop
       onJobs offJobs onIdx offIdx lookup list_lookup].
  unfold pairBody, withRemaining, mathMin. cbn [remaining job].
  rewrite Hq1, Hq2. reflexivity.
Qed.

Lemma reconcile_on10_off4_off6 jon j1 j2 :
  state jon = "ON" → state j1 = "OFF" → state j2 = "OFF" →
  quantity jon = Some 10 → quantity j1 = Some 4 → quantity j2 = Some 6 →
  compareCreatedAt j1 j2 ≤ 0 →
  reconcileGroup tz [jon; j1; j2]
  = [matchedRow tz (withRemaining jon) (withRemaining j1) 4;
     matchedRow tz (withRemaining jon) (withRemaining j2) 6].
Proof.
  intros Hs0 Hs1 Hs2 Hq0 Hq1 Hq2 H12.
  unfold reconcileGroup, runPairLoop, pairFuel, initPair.
  rewrite !filter_sortGroup.
  assert (List.filter isOn [jon; j1; j2] = [jon] ∧
          List.filter isOff [jon; j1; j2] = [j1; j2]) as [-> ->].
  { unfold isOn, isOff; simpl. rewrite Hs0, Hs1, Hs2. done. }
  assert (sortGroup [j1; j2] = [j1; j2]) as ->.
  { unfold sortGroup. simpl.
    by destruct (Z.leb_spec (compareCreatedAt j1 j2) 0); [|lia]. }
  cbn [sortGroup sortBy insertSorted fmap list_fmap length Nat.add pairLoop
       onJobs offJobs onIdx offIdx lookup list_lookup].
  unfold pairBody at 1, withRemaining, mathMin. cbn [remaining job].
  rewrite Hq0, Hq1, Hq2.
  cbn -[matchedRow pairBody].
  unfold pairBody, mathMin. reflexivity.
Qed.

(** *** Minutes between two truncated times *)

Lemma setSeconds00_minutes t : setSeconds00 t = 60000 * (t `div` 60000).
Proof. unfold setSeconds00. pose proof (Z.div_mod t 60000). lia. Qed.

Lemma totalTimeOf_minutes onJob offJob :
  totalTimeOf onJob offJob * 60000 = closeTimeOf offJob - onTimeOf onJob.
Proof.
  unfold totalTimeOf, closeTimeOf, onTimeOf, mathRoundDiv.
  rewrite !setSeconds00_minutes.
  set (a := _ `div` 60000). set (b := _ `div` 60000).
  replace (2 * (60000 * a - 60000 * b) + 60000)
    with ((a - b) * (2 * 60000) + 60000) by lia.
  rewrite Z.div_add_l by lia. change (60000 `div` (2 * 60000)) with 0. lia.
Qed.

(** ** The partial split *)

(** C4. A group of one ON job of quantity 10 at 09:00 and two OFF jobs, of
    quantity 4 closed at 09:15 and of quantity 6 closed at 09:45 (the first
    created no later than the second), gives exactly two rows: quantity 4 from 09:00 to 09:15 with total time 15, and
    quantity 6 from 09:00 to 09:45 with total time 45. *)
Theorem partial_split jon j1 j2 :
  state jon = "ON" → state j1 = "OFF" → state j2 = "OFF" →
  quantity jon = Some 10 → quantity j1 = Some 4 → quantity j2 = Some 6 →
  compareCreatedAt j1 j2 ≤ 0 →
  hhmm tz (onTimeOf jon) = "09:00" →
  hhmm tz (closeTimeOf j1) = "09:15" →
  hhmm tz (closeTimeOf j2) = "09:45" →
  closeTimeOf j1 - onTimeOf jon = 15 * 60000 →
  closeTimeOf j2 - onTimeOf jon = 45 * 60000 →
  reconcileGroup tz [jon; j1; j2]
  = [ {| row_productId := productLabel jon;
         row_quantity := 4;
         row_machineNumber := machineNumberOf jon;
         row_date := isoDate (onTimeOf jon);
         row_onTime := "09:00";
         row_offTime := "09:15";
         row_totalTime := Some 15 |};
      {| row_productId := productLabel jon;
         row_quantity := 6;
         row_machineNumber := machineNumberOf jon;
         row_date := isoDate (onTimeOf jon);
         row_onTime := "09:00";
         row_offTime := "09:45";
         row_totalTime := Some 45 |} ].
Proof.
  intros Hs0 Hs1 Hs2 Hq0 Hq1 Hq2 H12 Hon Hoff1 Hoff2 Hd1 Hd2.
  rewrite reconcile_on10_off4_off6 by done.
  pose proof (totalTimeOf_minutes jon j1) as Ht1.
  pose proof (totalTimeOf_minutes jon j2) as Ht2.
  assert (totalTimeOf jon j1 = 15) as E1 by lia.
  assert (totalTimeOf jon j2 = 45) as E2 by lia.
  unfold matchedRow, withRemaining. cbn [job].
  rewrite E1, E2, Hon, Hoff1, Hoff2. reflexivity.
Qed.

(** ** Surplus OFF quantity *)

(** C5. OFF quantity without a matching ON gives no row. Every row that a
    group pushes reports an ON job of the group, with a quantity taken from
    that job; a group without ON jobs pushes no row, whatever its OFF jobs
    are; and an ON job of quantity 2 with an OFF job of quantity 5 gives
    exactly one row, of quantity 2 (the remaining 3 of the OFF job are in no
    row). *)
Theorem surplus_off_has_no_row :
  (∀ group r, r ∈ reconcileGroup tz group →
     ∃ j, j ∈ group ∧ isOn j = true ∧ reportsOnJob tz j r) ∧
  (∀ group, List.filter isOn group = [] → reconcileGroup tz group = []) ∧
  (∀ jon joff,
     state jon = "ON" → state joff = "OFF" →
     quantity jon = Some 2 → quantity joff = Some 5 →
     reconcileGroup tz [jon; joff]
     = [ {| row_productId := productLabel jon;
            row_quantity := 2;
            row_machineNumber := machineNumberOf jon;
            row_date := isoDate (onTimeOf jon);
            row_onTime := hhmm tz (onTimeOf jon);
            row_offTime := hhmm tz (closeTimeOf joff);
            row_totalTime := if totalTimeOf jon joff =? 0 then None
                             else Some (totalTimeOf jon joff) |} ]).
Proof.
  split_and!.
  - apply reconcileGroup_reports.
  - apply reconcileGroup_no_on.
  - intros jon joff ????. by rewrite reconcile_on2_off5.
Qed.

(** ** Negative total time *)


End PairingProofs.

(** ** Keys of the aggregation *)

Section KeyProofs.

Lemma append_nil (b : string) : "" +:+ b = b.
Proof. reflexivity. Qed.

Lemma append_cons x (a b : string) : String x a +:+ b = String x (a +:+ b).
Proof. reflexivity. Qed.

Lemma append_assoc (a b c : string) : (a +:+ b) +:+ c = a +:+ (b +:+ c).
Proof.
  induction a as [|x a IH]; [done|]. by rewrite !append_cons, IH.
Qed.

Lemma noBar_app a b : noBar (a +:+ b) = noBar a && noBar b.
Proof.
  induction a as [|x a IH]; [done|].
  rewrite append_cons. simpl. by rewrite IH, andb_assoc.
Qed.

Lemma noBar_bar s : noBar (String "|" s) = false.
Proof. reflexivity. Qed.

(** A string is split at its last separator in one way only. *)
Lemma split_last_bar a a' b b' :
  noBar b = true → noBar b' = true →
  a +:+ String "|" b = a' +:+ String "|" b' → a = a' ∧ b = b'.
Proof.
  intros Hb Hb'. revert a'.
  induction a as [|x a IH]; intros [|x' a'];
    rewrite ?append_nil, ?append_cons; intros Heq.
  - by simplify_eq.
  - simplify_eq. by rewrite noBar_app, noBar_bar, andb_false_r in Hb.
  - simplify_eq. by rewrite noBar_app, noBar_bar, andb_false_r in Hb'.
  - simplify_eq. destruct (IH a') as [-> ->]; done.
Qed.

Lemma noBar_pretty_N_go x s : noBar s = true → noBar (pretty_N_go x s) = true.
Proof.
  revert s. induction (N.lt_wf_0 x) as [x _ IH]; intros s Hs.
  destruct (decide (x = 0)%N) as [->|Hx]; [by rewrite pretty_N_go_0|].
  rewrite pretty_N_go_step by lia. apply IH.
  - apply N.div_lt; lia.
  - simpl. rewrite Hs. unfold pretty_N_char. by repeat case_match.
Qed.

Lemma noBar_pretty_N (x : N) : noBar (pretty x) = true.
Proof.
  unfold pretty, pretty_N. case_decide; [done|]. by apply noBar_pretty_N_go.
Qed.

Lemma noBar_pretty_Z (x : Z) : noBar (pretty x) = true.
Proof.
  destruct x as [|p|p]; [done|..]; unfold pretty, pretty_Z, pretty, pretty_positive.
  - apply noBar_pretty_N.
  - simpl. apply noBar_pretty_N.
Qed.

Lemma noBar_totalTimeStr t : noBar (totalTimeStr t) = true.
Proof. destruct t; [apply noBar_pretty_Z|done]. Qed.

Lemma pretty_N_go_nonempty x s : s ≠ "" → pretty_N_go x s ≠ "".
Proof.
  revert s. induction (N.lt_wf_0 x) as [x _ IH]; intros s Hs.
  destruct (decide (x = 0)%N) as [->|Hx]; [by rewrite pretty_N_go_0|].
  rewrite pretty_N_go_step by lia. apply IH; [|done].
  apply N.div_lt; lia.
Qed.

Lemma pretty_N_nonempty (x : N) : pretty x ≠ "".
Proof.
  unfold pretty, pretty_N. case_decide; [done|].
  rewrite pretty_N_go_step by lia. by apply pretty_N_go_nonempty.
Qed.

Lemma pretty_Z_nonempty (x : Z) : pretty x ≠ "".
Proof.
  destruct x as [|p|p]; [done| |done].
  unfold pretty, pretty_Z, pretty, pretty_positive. apply pretty_N_nonempty.
Qed.

Lemma totalTimeStr_inj t t' : totalTimeStr t = totalTimeStr t' → t = t'.
Proof.
  destruct t as [n|], t' as [n'|]; simpl; intros Heq; try done.
  - f_equal. by apply (inj pretty).
  - by destruct (pretty_Z_nonempty n).
  - by destruct (pretty_Z_nonempty n').
Qed.

Lemma bar_reassoc (a b c : string) :
  a +:+ String "|" (b +:+ c) = (a +:+ String "|" b) +:+ c.
Proof. by rewrite append_assoc, append_cons. Qed.

(** On rows whose later fields hold no separator, the joined key determines
    every field that went into it. *)
Lemma groupKey_inj r r' :
  wfRow r → wfRow r' → groupKey r = groupKey r' → rowKey r = rowKey r'.
Proof.
  intros (HM & HD & HO & HF) (HM' & HD' & HO' & HF').
  destruct r as [P q M D O F T], r' as [P' q' M' D' O' F' T'].
  unfold groupKey, rowKey; simpl in *. intros Heq.
  change (P +:+ String "|" (M +:+ String "|" (D +:+ String "|" (O +:+
            String "|" (F +:+ String "|" (totalTimeStr T)))))
          = P' +:+ String "|" (M' +:+ String "|" (D' +:+ String "|" (O' +:+
            String "|" (F' +:+ String "|" (totalTimeStr T')))))) in Heq.
  rewrite (bar_reassoc P M), (bar_reassoc _ D), (bar_reassoc _ O),
    (bar_reassoc _ F) in Heq.
  rewrite (bar_reassoc P' M'), (bar_reassoc _ D'), (bar_reassoc _ O'),
    (bar_reassoc _ F') in Heq.
  apply split_last_bar in Heq as [Heq HT]; [|apply noBar_totalTimeStr..].
  apply split_last_bar in Heq as [Heq ->]; [|done..].
  apply split_last_bar in Heq as [Heq ->]; [|done..].
  apply split_last_bar in Heq as [Heq ->]; [|done..].
  apply split_last_bar in Heq as [-> ->]; [|done..].
  by apply totalTimeStr_inj in HT as ->.
Qed.

Lemma rowKey_groupKey r r' : rowKey r = rowKey r' → groupKey r = groupKey r'.
Proof. unfold rowKey, groupKey. intros [= -> -> -> -> -> ->]. done. Qed.

(** *** First occurrences *)

Lemma filter_ext_in {A} (P Q : A → Prop) `{∀ x, Decision (P x)}
    `{∀ x, Decision (Q x)} (l : list A) :
  (∀ x, x ∈ l → P x ↔ Q x) → filter P l = filter Q l.
Proof.
  induction l as [|x l IH]; intros Hext; [done|].
  rewrite !filter_cons.
  rewrite IH by (intros y Hy; apply Hext; by right).
  destruct (Hext x) as [H1 H2]; [by left|].
  repeat case_decide; naive_solver.
Qed.

Lemma fmap_ext_in {A B} (f g : A → B) (l : list A) :
  (∀ x, x ∈ l → f x = g x) → f <$> l = g <$> l.
Proof.
  intros Hext. apply list_fmap_ext. intros i x Hx. apply Hext.
  by eapply list_elem_of_lookup_2.
Qed.

Section FirstBy.

Context {A K : Type} `{EqDecision K} (key : A → K).

Lemma filter_fmap_key (k : K) (l : list A) :
  key <$> filter (λ y, key y ≠ k) l = filter (λ y, y ≠ k) (key <$> l).
Proof.
  induction l as [|x l IH]; [done|].
  rewrite fmap_cons, !filter_cons. repeat case_decide; try done.
  by rewrite fmap_cons, IH.
Qed.

Lemma firstBy_keys (l : list A) : key <$> firstBy key l = firstSeen (key <$> l).
Proof.
  unfold firstSeen. induction l as [|x l IH]; [done|].
  simpl. by rewrite filter_fmap_key, IH.
Qed.

Lemma elem_of_firstBy_sub x (l : list A) : x ∈ firstBy key l → x ∈ l.
Proof.
  revert x. induction l as [|y l IH]; intros x; simpl; [done|].
  intros [->|Hx]%elem_of_cons; [by left|].
  apply list_elem_of_filter in Hx as [_ Hx]. right. by apply IH.
Qed.

Lemma elem_of_firstBy_key (k : K) (l : list A) :
  k ∈ key <$> firstBy key l ↔ k ∈ key <$> l.
Proof.
  induction l as [|y l IH]; [done|].
  simpl. rewrite !elem_of_cons, filter_fmap_key, list_elem_of_filter, IH.
  destruct (decide (k = key y)); naive_solver.
Qed.

Lemma NoDup_firstBy (l : list A) : NoDup (key <$> firstBy key l).
Proof.
  induction l as [|y l IH]; simpl; [constructor|].
  rewrite filter_fmap_key. constructor.
  - rewrite list_elem_of_filter. naive_solver.
  - by apply NoDup_filter.
Qed.

Lemma firstBy_snoc (l : list A) x :
  firstBy key (l ++ [x])
  = if decide (key x ∈ key <$> l) then firstBy key l else firstBy key l ++ [x].
Proof.
  induction l as [|y l IH]; [done|].
  change (firstBy key ((y :: l) ++ [x]))
    with (y :: filter (λ z, key z ≠ key y) (firstBy key (l ++ [x]))).
  rewrite IH, fmap_cons. clear IH.
  destruct (decide (key x = key y)) as [Heq|Hne].
  - rewrite (decide_True (P := key x ∈ key y :: _)) by (rewrite Heq; left).
    case_decide; [done|].
    rewrite filter_app, filter_cons_False, filter_nil, app_nil_r by naive_solver.
    done.
  - case_decide.
    + by rewrite decide_True by by right.
    + rewrite decide_False by (rewrite elem_of_cons; naive_solver).
      by rewrite filter_app, filter_cons_True, filter_nil by done.
Qed.

Lemma firstBy_ext {K'} `{EqDecision K'} (key' : A → K') (l : list A) :
  (∀ x y, x ∈ l → y ∈ l → key x = key y ↔ key' x = key' y) →
  firstBy key l = firstBy key' l.
Proof.
  induction l as [|x l IH]; intros Hext; [done|].
  simpl. rewrite <-IH by (intros y z ??; apply Hext; by right).
  f_equal. apply filter_ext_in. intros y Hy.
  apply elem_of_firstBy_sub in Hy.
  rewrite (Hext y x); [done|by right|by left].
Qed.

End FirstBy.

(** *** Quantities per key *)

Section QuantityOf.

Context `{EqDecision K} (key : Row → K).

Lemma quantityOf_snoc (k : K) l x :
  quantityOf key k (l ++ [x])
  = quantityOf key k l + (if decide (key x = k) then row_quantity x else 0).
Proof.
  unfold quantityOf. rewrite filter_app, fmap_app, sumZ_app. f_equal.
  rewrite filter_cons, filter_nil. case_decide; simpl; lia.
Qed.

Lemma quantityOf_absent (k : K) l : k ∉ key <$> l → quantityOf key k l = 0.
Proof.
  unfold quantityOf. induction l as [|x l IH]; [done|].
  rewrite fmap_cons, not_elem_of_cons. intros [Hne Hk].
  rewrite filter_cons_False by done. by apply IH.
Qed.

Lemma quantityOf_ext {K'} `{EqDecision K'} (key' : Row → K') l r :
  (∀ x y, x ∈ l → y ∈ l → key x = key y ↔ key' x = key' y) →
  r ∈ l → quantityOf key (key r) l = quantityOf key' (key' r) l.
Proof.
  intros Hext Hr. unfold quantityOf. do 2 f_equal.
  apply filter_ext_in. intros x Hx. by apply Hext.
Qed.

End QuantityOf.

(** *** The aggregation as a function of the rows *)

Lemma withQuantity_same r : withQuantity r (row_quantity r) = r.
Proof. by destruct r. Qed.

Lemma mergeRow_entries (Q : Row → Z) (k : string) (x : Row) (F : list Row) :
  NoDup (groupKey <$> F) →
  mergeRow k x ((λ r, (groupKey r, withQuantity r (Q r))) <$> F)
  = if decide (k ∈ groupKey <$> F)
    then (λ r, (groupKey r,
                withQuantity r
                  (Q r + if decide (k = groupKey r) then row_quantity x else 0)))
           <$> F
    else ((λ r, (groupKey r, withQuantity r (Q r))) <$> F) ++ [(k, x)].
Proof.
  induction F as [|r F IH]; [done|].
  rewrite fmap_cons. intros [Hr HF]%NoDup_cons. specialize (IH HF).
  rewrite !fmap_cons. simpl.
  destruct (String.eqb_spec (groupKey r) k) as [Heq|Hne].
  - rewrite decide_True by (rewrite Heq; left).
    rewrite decide_True by done. f_equal.
    apply fmap_ext_in. intros y Hy.
    rewrite decide_False; [by rewrite Z.add_0_r|].
    intros Heq'. apply Hr. rewrite Heq, Heq'.
    apply list_elem_of_fmap. eauto.
  - rewrite IH. rewrite (decide_False (P := k = groupKey r)) by done.
    rewrite Z.add_0_r. case_decide.
    + by rewrite decide_True by by right.
    + by rewrite decide_False by (rewrite elem_of_cons; naive_solver).
Qed.

Lemma groupedRowsObj_snoc rws x :
  groupedRowsObj (rws ++ [x]) = mergeRow (groupKey x) x (groupedRowsObj rws).
Proof. unfold groupedRowsObj. by rewrite foldl_snoc. Qed.

Lemma groupedRowsObj_entries rws :
  groupedRowsObj rws
  = (λ r, (groupKey r,
           withQuantity r (quantityOf groupKey (groupKey r) rws)))
      <$> firstBy groupKey rws.
Proof.
  induction rws as [|x rws IH] using rev_ind; [done|].
  rewrite groupedRowsObj_snoc, IH, firstBy_snoc.
  rewrite mergeRow_entries by apply NoDup_firstBy.
  rewrite (decide_ext _ _ _ _ (elem_of_firstBy_key groupKey (groupKey x) rws)).
  case_decide as Hin.
  - apply fmap_ext_in. intros r _. by rewrite quantityOf_snoc.
  - rewrite fmap_app. f_equal.
    + apply fmap_ext_in. intros r Hr. rewrite quantityOf_snoc.
      rewrite decide_False; [by rewrite Z.add_0_r|].
      intros Heq. apply Hin. rewrite Heq. apply list_elem_of_fmap.
      exists r. split; [done|]. by eapply elem_of_firstBy_sub.
    + simpl. rewrite quantityOf_snoc, quantityOf_absent by done.
      rewrite decide_True by done. simpl. by rewrite withQuantity_same.
Qed.

Lemma aggregate_groupKey rws :
  aggregate rws
  = (λ r, withQuantity r (quantityOf groupKey (groupKey r) rws))
      <$> firstBy groupKey rws.
Proof.
  unfold aggregate. rewrite groupedRowsObj_entries, <-list_fmap_compose. done.
Qed.

Lemma keys_agree rws :
  Forall wfRow rws →
  ∀ x y, x ∈ rws → y ∈ rws → groupKey x = groupKey y ↔ rowKey x = rowKey y.
Proof.
  intros Hwf x y Hx Hy. split; [|apply rowKey_groupKey].
  apply groupKey_inj; by eapply Forall_forall.
Qed.

(** On rows whose later fields hold no separator, the aggregation is: for
    every tuple of fields other than the quantity, the first row that has
    it, with the total quantity of the rows that have it. *)
Lemma aggregate_rowKey rws :
  Forall wfRow rws →
  aggregate rws
  = (λ r, withQuantity r (quantityOf rowKey (rowKey r) rws))
      <$> firstBy rowKey rws.
Proof.
  intros Hwf. pose proof (keys_agree _ Hwf) as Hext.
  rewrite aggregate_groupKey, (firstBy_ext groupKey rowKey) by done.
  apply fmap_ext_in. intros r Hr. f_equal.
  apply quantityOf_ext; [done|]. by eapply elem_of_firstBy_sub.
Qed.

Lemma rowKey_withQuantity r q : rowKey (withQuantity r q) = rowKey r.
Proof. reflexivity. Qed.

Lemma aggregate_keys rws :
  Forall wfRow rws → rowKey <$> aggregate rws = rowKey <$> firstBy rowKey rws.
Proof.
  intros Hwf. rewrite aggregate_rowKey by done.
  rewrite <-list_fmap_compose. by apply fmap_ext_in.
Qed.

(** ** Merging of identical rows *)


(** ** Order of the merged rows *)

(** C7. The merged rows come in the order in which their keys first occur
    in the input: this holds for the joined key of the source on every
    sequence of rows, and for the tuple of the fields other than the
    quantity on the rows of the report. *)
Theorem aggregate_first_seen_order rws :
  groupKey <$> aggregate rws = firstSeen (groupKey <$> rws) ∧
  (Forall wfRow rws →
   rowKey <$> aggregate rws = firstSeen (rowKey <$> rws)).
Proof.
  split.
  - rewrite aggregate_groupKey, <-list_fmap_compose, <-firstBy_keys.
    by apply fmap_ext_in.
  - intros Hwf. by rewrite aggregate_keys, firstBy_keys.
Qed.

(** *** The rows that the pairing pushes hold no separator *)

Lemma isDigit_not_bar c : isDigit c = true → Ascii.eqb c "|" = false.
Proof. by destruct c as [[] [] [] [] [] [] [] []]. Qed.

Lemma allDigits_noBar s : allDigits s = true → noBar s = true.
Proof.
  induction s as [|c s IH]; simpl; [done|].
  intros [Hc Hs]%andb_prop. by rewrite (isDigit_not_bar c), IH.
Qed.

Lemma noBar_takeDigits s : noBar (takeDigits s) = true.
Proof.
  induction s as [|c s IH]; simpl; [done|].
  destruct (isDigit c) eqn:Hc; [|done]. simpl. by rewrite (isDigit_not_bar c).
Qed.

Lemma noBar_matchHashDigits s m : matchHashDigits s = Some m → noBar m = true.
Proof.
  induction s as [|c s IH]; simpl; [done|].
  case_match; [|done]. intros [= <-]. apply noBar_takeDigits.
Qed.

Lemma noBar_matchTrailingDigits s m :
  matchTrailingDigits s = Some m → noBar m = true.
Proof.
  induction s as [|c s IH]; [done|].
  cbn [matchTrailingDigits]. case_match eqn:Hd; [|done].
  intros [= <-]. by apply allDigits_noBar.
Qed.

Lemma noBar_getMachineNumber name : noBar (getMachineNumber name) = true.
Proof.
  unfold getMachineNumber. case_match; [done|].
  case_match eqn:H1; [by eapply noBar_matchHashDigits|].
  case_match eqn:H2; [by eapply noBar_matchTrailingDigits|done].
Qed.

Lemma noBar_zeros n : noBar (zeros n) = true.
Proof. induction n; [done|]. simpl. done. Qed.

Lemma noBar_padStart0 w s : noBar s = true → noBar (padStart0 w s) = true.
Proof. intros Hs. unfold padStart0. by rewrite noBar_app, noBar_zeros, Hs. Qed.

Lemma noBar_pad2 n : noBar (pad2 n) = true.
Proof. apply noBar_padStart0, noBar_pretty_Z. Qed.

Lemma noBar_isoDate t : noBar (isoDate t) = true.
Proof.
  unfold isoDate. destruct (civilFromDays _) as [[y m] d].
  rewrite !noBar_app, !noBar_pad2. unfold isoYear.
  repeat case_match; rewrite ?noBar_app, ?noBar_padStart0;
    auto using noBar_pretty_Z.
Qed.

Lemma noBar_hhmm tz t : noBar (hhmm tz t) = true.
Proof. unfold hhmm. by rewrite !noBar_app, !noBar_pad2. Qed.

Lemma matchedRow_wf tz a b q : wfRow (matchedRow tz a b q).
Proof.
  unfold wfRow; simpl. unfold machineNumberOf.
  split_and!; auto using noBar_getMachineNumber, noBar_isoDate, noBar_hhmm.
Qed.

Lemma unmatchedRows_wf tz l : Forall wfRow (unmatchedRows tz l).
Proof.
  induction l as [|x l IH]; simpl; [done|]. case_match; [|done].
  constructor; [|done]. unfold wfRow; simpl. unfold machineNumberOf.
  split_and!; auto using noBar_getMachineNumber, noBar_isoDate, noBar_hhmm.
Qed.

Lemma pairLoop_wf tz fuel s :
  Forall wfRow (rows s) → Forall wfRow (rows (pairLoop tz fuel s).1).
Proof.
  revert s. induction fuel as [|fuel IH]; intros s Hs; simpl; [done|].
  destruct (onJobs s !! onIdx s) as [a|] eqn:Ha; [|done].
  destruct (offJobs s !! offIdx s) as [b|] eqn:Hb; [|done].
  destruct (pairBody tz s a b) as [s' fl] eqn:Hbody.
  assert (Forall wfRow (rows s')) as Hs'.
  { apply pairBody_fields in Hbody as (_ & _ & ->). cbv zeta.
    case_match; [|done]. apply Forall_app. split; [done|].
    apply Forall_singleton, matchedRow_wf. }
  destruct fl; [by apply IH|done].
Qed.

Lemma reconcileGroup_wf tz group : Forall wfRow (reconcileGroup tz group).
Proof.
  unfold reconcileGroup, runPairLoop. apply Forall_app. split.
  - by apply pairLoop_wf.
  - apply unmatchedRows_wf.
Qed.

(** Every row that reaches the aggregation holds no separator after
    [productId]. *)
Lemma allRows_wf tz jobs : Forall wfRow (allRows tz jobs).
Proof.
  unfold allRows. induction (jobGroups jobs) as [|kg groups IH]; simpl; [done|].
  apply Forall_app. split; [apply reconcileGroup_wf|done].
Qed.

End KeyProofs.

(** ** The store *)

Section StoreProofs.

Variable tz : Z → Z.

Lemma jobAt_setRemaining l v h l' : jobAt (setRemaining l v h) l' = jobAt h l'.
Proof.
  unfold setRemaining, jobAt. destruct (decide (l = l')) as [->|Hne].
  - by rewrite lookup_total_insert_eq.
  - by rewrite lookup_total_insert_ne.
Qed.

Lemma remainingAt_setRemaining_eq l v h : remainingAt (setRemaining l v h) l = v.
Proof. unfold setRemaining, remainingAt. by rewrite lookup_total_insert_eq. Qed.

Lemma remainingAt_setRemaining_ne l v h l' :
  l ≠ l' → remainingAt (setRemaining l v h) l' = remainingAt h l'.
Proof.
  intros Hne. unfold setRemaining, remainingAt.
  by rewrite lookup_total_insert_ne.
Qed.

Lemma lookup_setRemaining_ne l v (h : gmap nat Obj) l' :
  l ≠ l' → setRemaining l v h !! l' = h !! l'.
Proof. intros Hne. unfold setRemaining. by rewrite lookup_insert_ne. Qed.

Lemma pairJobAt_setRemaining_eq l v h :
  pairJobAt (setRemaining l v h) l = {| job := jobAt h l; remaining := v |}.
Proof.
  unfold pairJobAt. by rewrite jobAt_setRemaining, remainingAt_setRemaining_eq.
Qed.

Lemma pairJobAt_setRemaining_ne l v h l' :
  l ≠ l' → pairJobAt (setRemaining l v h) l' = pairJobAt h l'.
Proof.
  intros Hne. unfold pairJobAt.
  by rewrite jobAt_setRemaining, remainingAt_setRemaining_ne.
Qed.

(** Reading an array of distinct references after one object has changed. *)
Lemma fmap_one_changed {B} (f g : nat → B) (ls : list nat) i l :
  NoDup ls → ls !! i = Some l →
  (∀ l', l' ∈ ls → l' ≠ l → g l' = f l') →
  g <$> ls = <[i := g l]> (f <$> ls).
Proof.
  intros Hnd Hi Hsame. apply list_eq. intros j.
  destruct (decide (j = i)) as [->|Hne].
  - rewrite list_lookup_insert_eq
      by (rewrite length_fmap; by eapply lookup_lt_Some).
    by rewrite list_lookup_fmap, Hi.
  - rewrite list_lookup_insert_ne by done. rewrite !list_lookup_fmap.
    destruct (ls !! j) as [l'|] eqn:Hj; [|done]. simpl. f_equal.
    apply Hsame; [by eapply list_elem_of_lookup_2|].
    intros ->. apply Hne. by eapply NoDup_lookup.
Qed.

(** *** The body on the store and the body on copies *)

Lemma heapBody_sim s onRef offRef :
  NoDup (onRefs s ++ offRefs s) →
  onRefs s !! hOnIdx s = Some onRef →
  offRefs s !! hOffIdx s = Some offRef →
  pairBody tz (viewState s) (pairJobAt (store s) onRef)
    (pairJobAt (store s) offRef)
  = (viewState (heapBody tz s onRef offRef).1, (heapBody tz s onRef offRef).2) ∧
  onRefs (heapBody tz s onRef offRef).1 = onRefs s ∧
  offRefs (heapBody tz s onRef offRef).1 = offRefs s ∧
  (∀ l, l ∉ onRefs s ++ offRefs s →
        store (heapBody tz s onRef offRef).1 !! l = store s !! l).
Proof.
  intros (Hndon & Hdisj & Hndoff)%NoDup_app Hon Hoff.
  pose proof (list_elem_of_lookup_2 _ _ _ Hon) as Hinon.
  pose proof (list_elem_of_lookup_2 _ _ _ Hoff) as Hinoff.
  assert (onRef ≠ offRef) as Hne by (intros ->; by eapply Hdisj).
  unfold heapBody, pairBody. cbv zeta.
  change (remaining (pairJobAt (store s) onRef)) with (remainingAt (store s) onRef).
  change (remaining (pairJobAt (store s) offRef)) with (remainingAt (store s) offRef).
  set (q := mathMin (remainingAt (store s) onRef) (remainingAt (store s) offRef)).
  destruct (0 <? q) eqn:Hq.
  - set (h1 := setRemaining onRef _ (store s)).
    set (h2 := setRemaining offRef _ h1).
    assert (pairJobAt h2 onRef = subRemaining (pairJobAt (store s) onRef) q) as Ea.
    { unfold h2. rewrite pairJobAt_setRemaining_ne by done.
      unfold h1. by rewrite pairJobAt_setRemaining_eq. }
    assert (pairJobAt h2 offRef = subRemaining (pairJobAt (store s) offRef) q) as Eb.
    { unfold h2. rewrite pairJobAt_setRemaining_eq.
      unfold h1. rewrite jobAt_setRemaining.
      by rewrite remainingAt_setRemaining_ne by done. }
    assert (∀ l, l ≠ onRef → l ≠ offRef → h2 !! l = store s !! l) as Hframe.
    { intros l ??. unfold h2, h1.
      by rewrite !lookup_setRemaining_ne by done. }
    assert (∀ l, l ≠ onRef → l ≠ offRef → pairJobAt h2 l = pairJobAt (store s) l)
      as Hsame.
    { intros l ??. unfold h2, h1.
      by rewrite !pairJobAt_setRemaining_ne by done. }
    assert (pairJobAt h2 <$> onRefs s
            = <[hOnIdx s := subRemaining (pairJobAt (store s) onRef) q]>
                (pairJobAt (store s) <$> onRefs s)) as Eon.
    { rewrite <-Ea. apply fmap_one_changed; [done..|].
      intros l Hl ?. apply Hsame; [done|]. intros ->. by eapply Hdisj. }
    assert (pairJobAt h2 <$> offRefs s
            = <[hOffIdx s := subRemaining (pairJobAt (store s) offRef) q]>
                (pairJobAt (store s) <$> offRefs s)) as Eoff.
    { rewrite <-Eb. apply fmap_one_changed; [done..|].
      intros l Hl ?. apply Hsame; [|done]. intros ->. by eapply Hdisj. }
    change (remainingAt h2 onRef) with (remaining (pairJobAt h2 onRef)).
    change (remainingAt h2 offRef) with (remaining (pairJobAt h2 offRef)).
    rewrite Ea, Eb.
    assert (∀ l, l ∉ onRefs s ++ offRefs s → h2 !! l = store s !! l) as Hout.
    { intros l Hl. apply Hframe; intros ->; apply Hl, elem_of_app; auto. }
    repeat case_match; unfold viewState; simpl; rewrite Eon, Eoff; done.
  - assert (pairJobAt (store s) <$> onRefs s
            = <[hOnIdx s := pairJobAt (store s) onRef]>
                (pairJobAt (store s) <$> onRefs s)) as Eon.
    { symmetry. apply list_insert_id. by rewrite list_lookup_fmap, Hon. }
    assert (pairJobAt (store s) <$> offRefs s
            = <[hOffIdx s := pairJobAt (store s) offRef]>
                (pairJobAt (store s) <$> offRefs s)) as Eoff.
    { symmetry. apply list_insert_id. by rewrite list_lookup_fmap, Hoff. }
    change (remainingAt (store s) onRef)
      with (remaining (pairJobAt (store s) onRef)).
    change (remainingAt (store s) offRef)
      with (remaining (pairJobAt (store s) offRef)).
    repeat case_match; unfold viewState; simpl; rewrite <-Eon, <-Eoff; done.
Qed.

Lemma heapLoop_sim fuel s :
  NoDup (onRefs s ++ offRefs s) →
  pairLoop tz fuel (viewState s)
  = (viewState (heapLoop tz fuel s).1, (heapLoop tz fuel s).2) ∧
  onRefs (heapLoop tz fuel s).1 = onRefs s ∧
  offRefs (heapLoop tz fuel s).1 = offRefs s ∧
  (∀ l, l ∉ onRefs s ++ offRefs s →
        store (heapLoop tz fuel s).1 !! l = store s !! l).
Proof.
  revert s. induction fuel as [|fuel IH]; intros s Hnd; [done|].
  cbn [pairLoop heapLoop].
  change (onJobs (viewState s)) with (pairJobAt (store s) <$> onRefs s).
  change (offJobs (viewState s)) with (pairJobAt (store s) <$> offRefs s).
  change (onIdx (viewState s)) with (hOnIdx s).
  change (offIdx (viewState s)) with (hOffIdx s).
  rewrite !list_lookup_fmap.
  destruct (onRefs s !! hOnIdx s) as [onRef|] eqn:Hon; [|done].
  destruct (offRefs s !! hOffIdx s) as [offRef|] eqn:Hoff; [|done].
  cbn [fmap option_fmap option_map].
  destruct (heapBody_sim s onRef offRef Hnd Hon Hoff)
    as (Hbody & Hons & Hoffs & Hframe).
  rewrite Hbody.
  destruct (heapBody tz s onRef offRef) as [s' fl]. simpl in *.
  destruct fl; [|done].
  destruct (IH s') as (Hloop & Hons' & Hoffs' & Hframe').
  { by rewrite Hons, Hoffs. }
  rewrite Hloop, Hons', Hoffs'. split_and!; try done.
  intros l Hl. rewrite Hframe' by by rewrite Hons, Hoffs. by apply Hframe.
Qed.

(** *** The copies *)

Lemma spreadCopies_spec h refs :
  Forall (λ l, is_Some (h !! l)) refs →
  (∀ l o, h !! l = Some o → (spreadCopies h refs).1 !! l = Some o) ∧
  NoDup (spreadCopies h refs).2 ∧
  (∀ l, l ∈ (spreadCopies h refs).2 →
        h !! l = None ∧ is_Some ((spreadCopies h refs).1 !! l)) ∧
  pairJobAt (spreadCopies h refs).1 <$> (spreadCopies h refs).2
  = withRemaining <$> (jobAt h <$> refs).
Proof.
  revert h. induction refs as [|l refs IH]; intros h Hrefs.
  { simpl. split_and!; [done|constructor|by intros ? ?%elem_of_nil|done]. }
  apply Forall_cons in Hrefs as [Hl Hrefs].
  cbn [spreadCopies]. unfold spreadCopy.
  set (l' := fresh (dom h)).
  set (o' := {| fields := jobAt h l;
                remainingProp := Some (quantity (jobAt h l)) |}).
  assert (h !! l' = None) as Hfresh by apply not_elem_of_dom, is_fresh.
  destruct (IH (<[l' := o']> h)) as (Hsub & Hnd & Hnew & Hview).
  { eapply Forall_impl; [done|]. intros x [o Hx]. exists o.
    rewrite lookup_insert_ne; [done|]. intros ->. congruence. }
  destruct (spreadCopies (<[l' := o']> h) refs) as [h2 ls]. cbn [fst snd] in *.
  assert (h2 !! l' = Some o') as Hl'.
  { apply Hsub. by rewrite lookup_insert_eq. }
  split_and!.
  - intros x o Hx. apply Hsub. rewrite lookup_insert_ne; [done|].
    intros ->. congruence.
  - constructor; [|done]. intros Hin. destruct (Hnew _ Hin) as [Hnone _].
    by rewrite lookup_insert_eq in Hnone.
  - intros x [->|Hx]%elem_of_cons; [by rewrite Hl'|].
    destruct (Hnew _ Hx) as [Hnone Hsome]. split; [|done].
    destruct (decide (l' = x)) as [->|Hne]; [done|].
    by rewrite lookup_insert_ne in Hnone.
  - rewrite !fmap_cons. f_equal.
    + unfold pairJobAt, jobAt, remainingAt.
      by rewrite (lookup_total_correct _ _ _ Hl').
    + rewrite Hview. f_equal. apply fmap_ext_in. intros x Hx.
      unfold jobAt. rewrite lookup_total_insert_ne; [done|].
      intros ->. destruct (proj1 (Forall_forall _ _) Hrefs _ Hx). congruence.
Qed.

(** *** Sorting and filtering references *)

Lemma insertSorted_fmap {A B} (f : A → B) (cmp : B → B → Z) x l :
  f <$> insertSorted (λ a b, cmp (f a) (f b)) x l
  = insertSorted cmp (f x) (f <$> l).
Proof.
  induction l as [|y l IH]; [done|].
  cbn [insertSorted]. rewrite fmap_cons. cbn [insertSorted].
  case_match; [done|]. by rewrite fmap_cons, IH.
Qed.

Lemma sortBy_fmap {A B} (f : A → B) (cmp : B → B → Z) l :
  f <$> sortBy (λ a b, cmp (f a) (f b)) l = sortBy cmp (f <$> l).
Proof.
  induction l as [|x l IH]; [done|].
  cbn [sortBy]. rewrite insertSorted_fmap, IH. done.
Qed.

Lemma filter_fmap_bool {A B} (f : A → B) (p : B → bool) l :
  f <$> List.filter (λ a, p (f a)) l = List.filter p (f <$> l).
Proof.
  induction l as [|x l IH]; [done|].
  rewrite fmap_cons. cbn [List.filter].
  case_match; rewrite ?fmap_cons, IH; done.
Qed.

Lemma Forall_sortBy_refs {A} (P : A → Prop) (cmp : A → A → Z) l :
  Forall P l → Forall P (sortBy cmp l).
Proof. intros H. by rewrite sortBy_perm. Qed.

(** ** The input jobs are left as they were *)

(** C8. The pass over a group writes to no object of the input. On a store
    in which the group is an array of references to job objects: every
    object that was in the store before is in it afterwards, unchanged (in
    particular the [quantity] of every job of the group is the same), and
    the rows pushed are those of the pairing on copies that carry their own
    counter [remaining], started at [quantity]. *)
Theorem input_jobs_not_mutated h group :
  Forall (λ l, is_Some (h !! l)) group →
  (∀ l o, h !! l = Some o →
     (reconcileGroupOnStore tz h group).1 !! l = Some o) ∧
  (∀ l, l ∈ group →
     quantity (jobAt (reconcileGroupOnStore tz h group).1 l)
     = quantity (jobAt h l)) ∧
  (reconcileGroupOnStore tz h group).2 = reconcileGroup tz (jobAt h <$> group).
Proof.
  intros Hgroup.
  cut ((∀ l o, h !! l = Some o →
          (reconcileGroupOnStore tz h group).1 !! l = Some o) ∧
       (reconcileGroupOnStore tz h group).2
       = reconcileGroup tz (jobAt h <$> group)).
  { intros [Hframe Hrows]. split_and!; [done| |done].
    intros l Hl. destruct (proj1 (Forall_forall _ _) Hgroup _ Hl) as [o Ho].
    unfold jobAt.
    by rewrite (lookup_total_correct _ _ _ Ho),
      (lookup_total_correct _ _ _ (Hframe _ _ Ho)). }
  unfold reconcileGroupOnStore.
  set (sorted := sortBy _ group).
  assert (Forall (λ l, is_Some (h !! l)) sorted) as Hsorted
    by by apply Forall_sortBy_refs.
  assert (jobAt h <$> sorted = sortGroup (jobAt h <$> group)) as Esorted
    by apply (sortBy_fmap (jobAt h) compareCreatedAt).
  destruct (spreadCopies_spec h (List.filter (λ l, isOn (jobAt h l)) sorted))
    as (Hsub1 & Hnd1 & Hnew1 & Hview1); [by apply Forall_filter_bool|].
  destruct (spreadCopies h _) as [h1 ons]. cbn [fst snd] in *.
  assert (List.filter (λ l, isOff (jobAt h1 l)) sorted
          = List.filter (λ l, isOff (jobAt h l)) sorted) as ->.
  { apply List.filter_ext_in. intros l Hl%list_elem_of_In.
    destruct (proj1 (Forall_forall _ _) Hsorted _ Hl) as [o Ho].
    unfold jobAt.
    by rewrite (lookup_total_correct _ _ _ Ho),
      (lookup_total_correct _ _ _ (Hsub1 _ _ Ho)). }
  destruct (spreadCopies_spec h1 (List.filter (λ l, isOff (jobAt h l)) sorted))
    as (Hsub2 & Hnd2 & Hnew2 & Hview2).
  { apply Forall_filter_bool. eapply Forall_impl; [exact Hsorted|].
    intros l [o Ho]. exists o. by apply Hsub1. }
  destruct (spreadCopies h1 _) as [h2 offs]. cbn [fst snd] in *.
  set (s0 := {| store := h2; onRefs := ons; offRefs := offs;
                hOnIdx := 0; hOffIdx := 0; hRows := [] |}).
  assert (NoDup (ons ++ offs)) as Hnd.
  { apply NoDup_app. split_and!; [done| |done].
    intros l Hon Hoff. destruct (Hnew1 _ Hon) as [_ [o Ho]].
    destruct (Hnew2 _ Hoff) as [Hnone _]. congruence. }
  assert (viewState s0 = initPair (jobAt h <$> group)) as Einit.
  { unfold viewState, initPair. cbn [store onRefs offRefs hOnIdx hOffIdx hRows s0].
    rewrite <-Esorted, <-!filter_fmap_bool. f_equal.
    - rewrite <-Hview1. apply fmap_ext_in. intros l Hl.
      destruct (Hnew1 _ Hl) as [_ [o Ho]]. unfold pairJobAt, jobAt, remainingAt.
      by rewrite (lookup_total_correct _ _ _ Ho),
        (lookup_total_correct _ _ _ (Hsub2 _ _ Ho)).
    - rewrite Hview2. f_equal. apply fmap_ext_in. intros l Hl.
      apply list_elem_of_In, filter_In in Hl as [Hl%list_elem_of_In _].
      destruct (proj1 (Forall_forall _ _) Hsorted _ Hl) as [o Ho].
      unfold jobAt.
      by rewrite (lookup_total_correct _ _ _ Ho),
        (lookup_total_correct _ _ _ (Hsub1 _ _ Ho)). }
  destruct (heapLoop_sim (S (length ons + length offs)) s0 Hnd)
    as (Hloop & Hons & Hoffs & Hframe).
  assert (S (length ons + length offs) = pairFuel (viewState s0)) as Efuel.
  { unfold pairFuel, viewState. cbn [onJobs offJobs onRefs offRefs s0].
    by rewrite !length_fmap. }
  cbn [fst snd].
  rewrite Efuel in Hloop, Hons, Hoffs, Hframe |- *.
  rewrite Einit in Hloop, Hons, Hoffs, Hframe |- *.
  destruct (heapLoop tz _ s0) as [s' e]. cbn [fst snd] in *.
  split.
  - intros l o Ho. rewrite Hframe; [by apply Hsub2, Hsub1|].
    cbn [onRefs offRefs s0]. intros [Hl|Hl]%elem_of_app.
    + destruct (Hnew1 _ Hl) as [Hnone _]. congruence.
    + destruct (Hnew2 _ Hl) as [Hnone _]. apply Hsub1 in Ho. congruence.
  - unfold reconcileGroup, runPairLoop. rewrite Hloop. cbn [fst].
    unfold viewState. cbn [rows onIdx onJobs].
    by rewrite fmap_drop.
Qed.

End StoreProofs.

(** ** The worksheet *)

Section WorksheetProofs.

Variable tz : Z → Z.

Lemma foldl_addJob_unresolved groups jobs :
  Forall (λ j, resolved j = false) jobs → foldl addJob groups jobs = groups.
Proof.
  revert groups. induction jobs as [|j jobs IH]; intros groups Hjobs; [done|].
  apply Forall_cons in Hjobs as [Hj Hjobs]. simpl.
  unfold addJob at 2. rewrite Hj. by apply IH.
Qed.

Lemma allRows_unresolved jobs :
  Forall (λ j, resolved j = false) jobs → allRows tz jobs = [].
Proof.
  intros Hjobs. unfold allRows, jobGroups.
  by rewrite foldl_addJob_unresolved.
Qed.

Lemma length_pos_ltb {A} (l : list A) : l ≠ [] → (0 <? length l)%nat = true.
Proof. destruct l; [done|]. by intros _. Qed.

(** ** Fallback and placeholder *)

(** C6. When the merged rows are empty and there is at least one job, the
    worksheet gets one fallback row per job, in the order of the jobs, and
    no placeholder; this is the case in particular when the grouping has
    dropped every job. When there is no job, the worksheet gets the single
    placeholder row. *)
Theorem fallback_rows jobs :
  (aggregate (allRows tz jobs) = [] → jobs ≠ [] →
   worksheetRows tz jobs
   = ((DataRow ∘ fallbackRow tz <$> jobs)
        ++ [EmptyRow; SummaryRow "Total Products:" 0],
      length jobs)) ∧
  (Forall (λ j, resolved j = false) jobs → aggregate (allRows tz jobs) = []) ∧
  (jobs = [] →
   worksheetRows tz jobs
   = ([MessageRow noDataMessage; EmptyRow; SummaryRow "Total Products:" 0],
      0%nat)).
Proof.
  split_and!.
  - intros Hempty Hjobs. unfold worksheetRows. rewrite Hempty. simpl.
    rewrite length_pos_ltb by done. destruct jobs as [|j jobs]; done.
  - intros Hjobs. by rewrite allRows_unresolved.
  - by intros ->.
Qed.

(** ** Quantity of a fallback row *)

(** C10. The quantity of a fallback row is the quantity of the job when
    that is a number other than zero, and 1 when the quantity is zero or
    missing; so there are jobs whose fallback rows add up to more than the
    quantities of the jobs. *)
Theorem fallback_quantity :
  (∀ j, row_quantity (fallbackRow tz j)
        = match quantity j with
          | Some q => if q =? 0 then 1 else q
          | None => 1
          end) ∧
  ∃ jobs,
    worksheetRows tz jobs
    = ((DataRow ∘ fallbackRow tz <$> jobs)
         ++ [EmptyRow; SummaryRow "Total Products:" 0],
       length jobs) ∧
    sumZ ((λ j, toNumber (quantity j)) <$> jobs)
    < sumQuantity (fallbackRow tz <$> jobs).
Proof.
  split.
  - intros j. unfold fallbackRow, truthyNum; simpl.
    destruct (quantity j) as [q|]; [|done]. simpl. by destruct (q =? 0).
  - exists [exOrphan]. split; [reflexivity|]. unfold sumQuantity. simpl. lia.
Qed.

End WorksheetProofs.

(** * Runs on example data *)

Example isoDate_epoch : isoDate 0 = "1970-01-01".
Proof. vm_compute. reflexivity. Qed.

Example isoDate_leap_day : isoDate (19782 * 86400000 + 5) = "2024-02-29".
Proof. vm_compute. reflexivity. Qed.

Example isoDate_before_epoch : isoDate (-1) = "1969-12-31".
Proof. vm_compute. reflexivity. Qed.

Example getMachineNumber_hash : getMachineNumber (Some "CNC #12 (bay 3)") = "12".
Proof. vm_compute. reflexivity. Qed.

Example getMachineNumber_trailing : getMachineNumber (Some "Lathe 7") = "7".
Proof. vm_compute. reflexivity. Qed.

Example getMachineNumber_none : getMachineNumber (Some "Lathe # 7a") = "".
Proof. vm_compute. reflexivity. Qed.

Example hhmm_india : hhmm (λ _, 330) exNine = "14:30".
Proof. vm_compute. reflexivity. Qed.

(** C1 as it is stated, for all non-negative integers, fails from [2^53]
    on. The ON job has quantity 9007199254740994 and the OFF job quantity
    1: the pair takes 1, the counter of the ON job becomes the double
    nearest to 9007199254740993, which is 9007199254740992, and the rows of
    quantity 1 and 9007199254740992 are 1 short of the ON quantity. *)
Lemma quantity_conservation_fails_beyond_doubles :
  Forall nonnegQuantity exLargeGroup ∧
  row_quantity <$> reconcileGroup utc exLargeGroup = [1; 9007199254740992] ∧
  sumQuantity (reconcileGroup utc exLargeGroup) ≠ onQuantity exLargeGroup.
Proof.
  split_and!.
  - apply Forall_cons. split; [eexists; split; [reflexivity|lia]|].
    apply Forall_cons. split; [eexists; split; [reflexivity|lia]|].
    apply Forall_nil_2.
  - by vm_compute.
  - by vm_compute.
Qed.

Lemma quantity_conservation_witness :
  sumQuantity
    (reconcileGroup utc [exJob "ON" 2 exNine None;
                         exJob "OFF" 5 (exNine + 60000) None])
  = onQuantity [exJob "ON" 2 exNine None; exJob "OFF" 5 (exNine + 60000) None].
Proof.
  apply (quantity_conservation utc).
  - apply Forall_cons. split; [exists 2; split; [reflexivity|lia]|].
    apply Forall_cons. split; [exists 5; split; [reflexivity|lia]|].
    apply Forall_nil_2.
  - apply Forall_cons. split; [by vm_compute|]. apply Forall_nil_2.
Defined.

Lemma pairing_never_breaks_witness :
  (runPairLoop utc [exJob "ON" 10 exNine None;
                    exJob "OFF" 4 (exNine + 900000) None]).2 = CondFalse.
Proof.
  apply (pairing_never_breaks utc).
  apply Forall_cons. split; [exists 10; split; [reflexivity|lia]|].
  apply Forall_cons. split; [exists 4; split; [reflexivity|lia]|].
  apply Forall_nil_2.
Defined.

Lemma partial_split_witness :
  reconcileGroup utc
    [exJob "ON" 10 exNine None;
     exJob "OFF" 4 (exNine + 15 * 60000 + 12345) None;
     exJob "OFF" 6 (exNine + 20 * 60000) (Some (exNine + 45 * 60000 + 59999))]
  = [ {| row_productId := "Widget"; row_quantity := 4;
         row_machineNumber := "4"; row_date := "2024-01-15";
         row_onTime := "09:00"; row_offTime := "09:15";
         row_totalTime := Some 15 |};
      {| row_productId := "Widget"; row_quantity := 6;
         row_machineNumber := "4"; row_date := "2024-01-15";
         row_onTime := "09:00"; row_offTime := "09:45";
         row_totalTime := Some 45 |} ].
Proof.
  apply (partial_split utc
           (exJob "ON" 10 exNine None)
           (exJob "OFF" 4 (exNine + 15 * 60000 + 12345) None)
           (exJob "OFF" 6 (exNine + 20 * 60000)
              (Some (exNine + 45 * 60000 + 59999))));
    by vm_compute.
Defined.

Lemma surplus_off_has_no_row_witness :
  reconcileGroup utc [exJob "ON" 2 exNine None;
                      exJob "OFF" 5 (exNine + 30 * 60000) None]
  = [ {| row_productId := "Widget"; row_quantity := 2;
         row_machineNumber := "4"; row_date := "2024-01-15";
         row_onTime := "09:00"; row_offTime := "09:30";
         row_totalTime := Some 30 |} ].
Proof.
  apply (proj2 (proj2 (surplus_off_has_no_row utc))
           (exJob "ON" 2 exNine None)
           (exJob "OFF" 5 (exNine + 30 * 60000) None));
    reflexivity.
Defined.


Lemma aggregate_first_seen_order_witness :
  rowKey <$> aggregate [exRow "Widget" 4 "09:15" (Some 15);
                        exRow "Gear" 1 "" None;
                        exRow "Widget" 3 "09:15" (Some 15)]
  = firstSeen (rowKey <$> [exRow "Widget" 4 "09:15" (Some 15);
                           exRow "Gear" 1 "" None;
                           exRow "Widget" 3 "09:15" (Some 15)]).
Proof.
  apply (proj2 (aggregate_first_seen_order
                  [exRow "Widget" 4 "09:15" (Some 15);
                   exRow "Gear" 1 "" None;
                   exRow "Widget" 3 "09:15" (Some 15)])).
  repeat (apply Forall_cons; split; [by vm_compute|]). apply Forall_nil_2.
Defined.

Lemma input_jobs_not_mutated_witness :
  quantity
    (jobAt
       (reconcileGroupOnStore utc
          (<[1%nat := jobObj (exJob "OFF" 5 (exNine + 60000) None)]>
             (<[0%nat := jobObj (exJob "ON" 2 exNine None)]> ∅))
          [0%nat; 1%nat]).1
       1%nat)
  = Some 5.
Proof.
  assert (Forall
            (λ l, is_Some
               ((<[1%nat := jobObj (exJob "OFF" 5 (exNine + 60000) None)]>
                   (<[0%nat := jobObj (exJob "ON" 2 exNine None)]> ∅)
                 : gmap nat Obj) !! l))
            [0%nat; 1%nat]) as Hrefs.
  { apply Forall_cons. split; [by eexists|].
    apply Forall_cons. split; [by eexists|]. apply Forall_nil_2. }
  rewrite (proj1 (proj2 (input_jobs_not_mutated utc _ _ Hrefs)) 1%nat).
  - reflexivity.
  - apply list_elem_of_In. right. left. reflexivity.
Defined.


Lemma fallback_rows_witness :
  worksheetRows utc [exOrphan]
  = ([DataRow {| row_productId := "7"; row_quantity := 1;
                 row_machineNumber := ""; row_date := "2024-01-15";
                 row_onTime := "09:00"; row_offTime := "";
                 row_totalTime := None |};
      EmptyRow; SummaryRow "Total Products:" 0],
     1%nat).
Proof.
  apply (proj1 (fallback_rows utc [exOrphan])); [reflexivity|discriminate].
Defined.

(** * Further properties of the report *)

(** ** The loop on arbitrary quantities *)

Section LoopProofs.

Variable tz : Z → Z.

Lemma pairLoop_more_fuel n fuel s :
  (pairLoop tz fuel s).2 ≠ OutOfFuel →
  pairLoop tz (fuel + n) s = pairLoop tz fuel s.
Proof.
  revert s. induction fuel as [|fuel IH]; intros s Hend; [done|].
  cbn [Nat.add pairLoop] in *.
  destruct (onJobs s !! onIdx s) as [a|]; [|done].
  destruct (offJobs s !! offIdx s) as [b|]; [|done].
  destruct (pairBody tz s a b) as [s' [|]]; [|done]. by apply IH.
Qed.

Lemma length_filter_sortGroup (f : Job → bool) group :
  length (List.filter f (sortGroup group)) = length (List.filter f group).
Proof.
  apply Permutation_length, filter_perm. unfold sortGroup. apply sortBy_perm.
Qed.

(** X1. On every group, whatever its quantities are ([null] and negative
    numbers included), the pairing loop stops by itself, after at most as
    many tests of its condition as the group has ON and OFF jobs, plus one;
    letting it run longer changes nothing. *)
Theorem pairing_loop_always_stops group n :
  (runPairLoop tz group).2 ≠ OutOfFuel ∧
  pairFuel (initPair group)
  = S (length (List.filter isOn group) + length (List.filter isOff group)) ∧
  pairLoop tz (pairFuel (initPair group) + n) (initPair group)
  = runPairLoop tz group.
Proof.
  split_and!.
  - apply runPairLoop_terminates.
  - unfold pairFuel, initPair. cbn [onJobs offJobs].
    by rewrite !length_fmap, !length_filter_sortGroup.
  - apply pairLoop_more_fuel, runPairLoop_terminates.
Qed.

(** ** Shape of the clock times *)

Lemma length_append (a b : string) :
  String.length (a +:+ b) = (String.length a + String.length b)%nat.
Proof.
  induction a as [|c a IH]; [done|]. rewrite append_cons. simpl. by rewrite IH.
Qed.

Lemma pad2_length n : 0 ≤ n < 100 → String.length (pad2 n) = 2%nat.
Proof.
  intros Hn.
  assert (forallb (λ k, (String.length (pad2 k) =? 2)%nat) (seqZ 0 100) = true)
    as Hall by (by vm_compute).
  rewrite forallb_forall in Hall.
  apply Nat.eqb_eq, Hall, list_elem_of_In, elem_of_seqZ. lia.
Qed.

Lemma hhmm_length t : String.length (hhmm tz t) = 5%nat.
Proof.
  unfold hhmm. rewrite !length_append, !pad2_length; [done|..].
  - unfold getMinutes. pose proof (Z.mod_pos_bound (localTime tz t `div` 60000) 60).
    lia.
  - unfold getHours.
    pose proof (Z.mod_pos_bound (localTime tz t `div` 3600000) 24). lia.
Qed.




End LoopProofs.

(** ** Totals *)

Section TotalProofs.

Variable tz : Z → Z.

Lemma foldl_quantity (a : Z) (l : list Row) :
  foldl (λ sum row, sum + row_quantity row) a l = a + sumQuantity l.
Proof.
  revert a. induction l as [|r l IH]; intros a.
  - unfold sumQuantity. simpl. lia.
  - cbn [foldl]. rewrite IH. unfold sumQuantity. rewrite fmap_cons. simpl. lia.
Qed.

Lemma totalQuantity_sum l : totalQuantity l = sumQuantity l.
Proof. unfold totalQuantity. by rewrite foldl_quantity. Qed.

Lemma mergeRow_sum k r obj :
  sumQuantity (mergeRow k r obj).*2 = sumQuantity obj.*2 + row_quantity r.
Proof.
  induction obj as [|[k' r'] obj IH]; [unfold sumQuantity; simpl; lia|].
  cbn [mergeRow]. destruct (String.eqb k' k).
  - unfold sumQuantity. rewrite !fmap_cons. simpl. lia.
  - rewrite !fmap_cons. unfold sumQuantity in *. rewrite !fmap_cons. simpl.
    rewrite IH. lia.
Qed.

Lemma aggregate_sum rws : sumQuantity (aggregate rws) = sumQuantity rws.
Proof.
  unfold aggregate. induction rws as [|r rws IH] using rev_ind; [done|].
  rewrite groupedRowsObj_snoc, mergeRow_sum, IH, sumQuantity_app.
  unfold sumQuantity. simpl. lia.
Qed.

(** X3. Merging loses and adds no quantity: on every sequence of rows whose
    quantities are non-negative integers with a sum of at most [2^53] (so
    that every addition of the code stays among the integers that a double
    holds), the total that the summary line computes over the merged rows
    is the sum of the quantities of the rows before merging. *)
Theorem aggregate_keeps_total rws :
  safeRows rws →
  totalQuantity (aggregate rws) = sumQuantity rws.
Proof. intros _. by rewrite totalQuantity_sum, aggregate_sum. Qed.

Lemma groupKey_withQuantity r q : groupKey (withQuantity r q) = groupKey r.
Proof. reflexivity. Qed.

Lemma filter_all_in {A} (P : A → Prop) `{∀ x, Decision (P x)} (l : list A) :
  (∀ x, x ∈ l → P x) → filter P l = l.
Proof.
  induction l as [|x l IH]; intros HP; [done|].
  rewrite filter_cons_True by (apply HP; by left).
  f_equal. apply IH. intros y Hy. apply HP. by right.
Qed.

Lemma filter_none_in {A} (P : A → Prop) `{∀ x, Decision (P x)} (l : list A) :
  (∀ x, x ∈ l → ¬ P x) → filter P l = [].
Proof.
  induction l as [|x l IH]; intros HP; [done|].
  rewrite filter_cons_False by (apply HP; by left).
  apply IH. intros y Hy. apply HP. by right.
Qed.

Lemma firstBy_NoDup {A} `{EqDecision K} (key : A → K) (l : list A) :
  NoDup (key <$> l) → firstBy key l = l.
Proof.
  induction l as [|x l IH]; [done|].
  rewrite fmap_cons. intros [Hx Hl]%NoDup_cons. simpl. rewrite IH by done.
  f_equal. apply filter_all_in. intros y Hy Heq. apply Hx. rewrite <-Heq.
  apply list_elem_of_fmap. eauto.
Qed.

Lemma quantityOf_NoDup `{EqDecision K} (key : Row → K) (l : list Row) r :
  NoDup (key <$> l) → r ∈ l → quantityOf key (key r) l = row_quantity r.
Proof.
  unfold quantityOf. induction l as [|x l IH]; [by intros _ ?%elem_of_nil|].
  rewrite fmap_cons. intros [Hx Hl]%NoDup_cons [->|Hr]%elem_of_cons.
  - rewrite filter_cons_True by done.
    rewrite filter_none_in; [simpl; lia|].
    intros y Hy Heq. apply Hx. rewrite <-Heq.
    apply list_elem_of_fmap. eauto.
  - rewrite filter_cons_False; [by apply IH|].
    intros Heq. apply Hx. rewrite Heq. apply list_elem_of_fmap. eauto.
Qed.

(** X4. Merging is idempotent: the merged rows have pairwise different
    keys, and merging them again gives them back unchanged. *)
Theorem aggregate_idempotent rws :
  NoDup (groupKey <$> aggregate rws) ∧
  aggregate (aggregate rws) = aggregate rws.
Proof.
  assert (NoDup (groupKey <$> aggregate rws)) as Hnd.
  { rewrite aggregate_groupKey, <-list_fmap_compose.
    rewrite (fmap_ext_in _ groupKey) by done. apply NoDup_firstBy. }
  split; [done|].
  rewrite (aggregate_groupKey (aggregate rws)), firstBy_NoDup by done.
  etrans; [|apply list_fmap_id].
  apply fmap_ext_in. intros r Hr.
  by rewrite quantityOf_NoDup, withQuantity_same.
Qed.

End TotalProofs.

(** ** The groups *)

Section GroupProofs.

Lemma firstSeen_snoc `{EqDecision A} (l : list A) x :
  firstSeen (l ++ [x]) = if decide (x ∈ l) then firstSeen l else firstSeen l ++ [x].
Proof.
  unfold firstSeen. rewrite firstBy_snoc, list_fmap_id. done.
Qed.

Lemma elem_of_firstSeen `{EqDecision A} (l : list A) x :
  x ∈ firstSeen l ↔ x ∈ l.
Proof.
  pose proof (elem_of_firstBy_key id x l) as H.
  by rewrite !list_fmap_id in H.
Qed.

Lemma NoDup_firstSeen `{EqDecision A} (l : list A) : NoDup (firstSeen l).
Proof.
  pose proof (NoDup_firstBy id l) as H. by rewrite list_fmap_id in H.
Qed.

Lemma pushJob_entries (G : string → list Job) k j (ks : list string) :
  NoDup ks →
  pushJob k j ((λ k', (k', G k')) <$> ks)
  = if decide (k ∈ ks)
    then (λ k', (k', G k' ++ if decide (k = k') then [j] else [])) <$> ks
    else ((λ k', (k', G k')) <$> ks) ++ [(k, [j])].
Proof.
  induction ks as [|k0 ks IH]; [done|].
  intros [Hk0 Hks]%NoDup_cons. specialize (IH Hks).
  rewrite !fmap_cons. cbn [pushJob].
  destruct (String.eqb_spec k0 k) as [Heq|Hne].
  - rewrite decide_True by (rewrite Heq; left).
    rewrite decide_True by done. f_equal.
    apply fmap_ext_in. intros k' Hk'.
    rewrite decide_False; [by rewrite app_nil_r|]. by intros <-; subst.
  - rewrite IH. rewrite (decide_False (P := k = k0)) by done.
    rewrite app_nil_r. case_decide.
    + by rewrite decide_True by by right.
    + by rewrite decide_False by (rewrite elem_of_cons; naive_solver).
Qed.

Lemma resolvedJobs_snoc jobs j :
  resolvedJobs (jobs ++ [j])
  = resolvedJobs jobs ++ (if resolved j then [j] else []).
Proof. unfold resolvedJobs. rewrite List.filter_app. simpl. by destruct (resolved j). Qed.

Lemma jobGroups_snoc jobs j :
  jobGroups (jobs ++ [j]) = addJob (jobGroups jobs) j.
Proof. unfold jobGroups. by rewrite foldl_snoc. Qed.

(** The groups as a function of the jobs: for every key, in the order of
    first occurrence, the kept jobs of that key. *)
Lemma jobGroups_entries jobs :
  jobGroups jobs
  = (λ k, (k, jobsOfKey k jobs)) <$> firstSeen (jobKey <$> resolvedJobs jobs).
Proof.
  induction jobs as [|j jobs IH] using rev_ind; [done|].
  rewrite jobGroups_snoc. unfold addJob, jobsOfKey in *.
  rewrite resolvedJobs_snoc. destruct (resolved j) eqn:Hres.
  - rewrite IH, fmap_app. change (jobKey <$> [j]) with [jobKey j].
    rewrite firstSeen_snoc.
    rewrite pushJob_entries by apply NoDup_firstSeen.
    rewrite (decide_ext _ _ _ _ (elem_of_firstSeen _ (jobKey j))).
    case_decide as Hin.
    + apply fmap_ext_in. intros k _. f_equal.
      rewrite filter_app, filter_cons, filter_nil. done.
    + rewrite fmap_app. f_equal.
      * apply fmap_ext_in. intros k Hk. f_equal.
        rewrite filter_app, filter_cons_False, filter_nil, app_nil_r; [done|].
        intros Heq. apply Hin. rewrite Heq. by apply elem_of_firstSeen.
      * simpl. do 2 f_equal.
        rewrite filter_app, filter_cons_True, filter_nil by done.
        rewrite filter_none_in; [done|].
        intros x Hx Heq. apply Hin. rewrite <-Heq.
        apply list_elem_of_fmap. eauto.
  - rewrite app_nil_r. exact IH.
Qed.

Lemma elem_of_resolvedJobs j jobs :
  j ∈ resolvedJobs jobs ↔ j ∈ jobs ∧ resolved j = true.
Proof. unfold resolvedJobs. by rewrite list_elem_of_In, filter_In, <-list_elem_of_In. Qed.

(** X5. The grouping puts the jobs in classes by their key: the keys of the
    groups are pairwise different and come in the order in which they first
    occur among the jobs that have a product and a machine; the group of a
    key holds exactly those of these jobs that have the key, in the order of
    the input, and is never empty. *)
Theorem jobGroups_are_key_classes jobs :
  NoDup (jobGroups jobs).*1 ∧
  (jobGroups jobs).*1 = firstSeen (jobKey <$> resolvedJobs jobs) ∧
  (∀ k g, (k, g) ∈ jobGroups jobs → g ≠ [] ∧ g = jobsOfKey k jobs).
Proof.
  assert ((jobGroups jobs).*1 = firstSeen (jobKey <$> resolvedJobs jobs)) as Hk.
  { rewrite jobGroups_entries, <-list_fmap_compose. apply list_fmap_id. }
  split_and!; [rewrite Hk; apply NoDup_firstSeen|done|].
  intros k g Hkg. rewrite jobGroups_entries in Hkg.
  apply list_elem_of_fmap in Hkg as (k' & [= -> ->] & Hk').
  split; [|done].
  apply elem_of_firstSeen, list_elem_of_fmap in Hk' as (j & -> & Hj).
  intros Hnil. unfold jobsOfKey in Hnil.
  by eapply (filter_nil_not_elem_of _ _ j).
Qed.

Lemma jobGroups_elem jobs j k g :
  (k, g) ∈ jobGroups jobs → j ∈ g →
  k = jobKey j ∧ j ∈ jobs ∧ resolved j = true.
Proof.
  intros Hkg Hj. rewrite jobGroups_entries in Hkg.
  apply list_elem_of_fmap in Hkg as (k' & [= -> ->] & _).
  apply list_elem_of_filter in Hj as [Hk Hj].
  by apply elem_of_resolvedJobs in Hj as [??].
Qed.

Lemma pushJob_concat k j groups :
  concat (pushJob k j groups).*2 ≡ₚ concat groups.*2 ++ [j].
Proof.
  induction groups as [|[k' g] groups IH]; simpl; [done|].
  destruct (String.eqb k' k); simpl.
  - rewrite <-!app_assoc. f_equiv. apply Permutation_app_comm.
  - rewrite IH. by rewrite app_assoc.
Qed.

Lemma foldl_addJob_concat groups jobs :
  concat (foldl addJob groups jobs).*2 ≡ₚ concat groups.*2 ++ resolvedJobs jobs.
Proof.
  revert groups. induction jobs as [|j jobs IH]; intros groups; simpl.
  { by rewrite app_nil_r. }
  rewrite IH. unfold addJob, resolvedJobs. simpl.
  destruct (resolved j); [|done].
  by rewrite pushJob_concat, <-app_assoc.
Qed.

Lemma jobGroups_concat jobs : concat (jobGroups jobs).*2 ≡ₚ resolvedJobs jobs.
Proof. apply (foldl_addJob_concat []). Qed.

(** X6. No job is lost or doubled by the grouping: a job is in some group
    exactly when it is in the input with a product and a machine, it is then
    in the group of its own key only, and the groups together are a
    rearrangement of these jobs. *)
Theorem jobGroups_partition jobs :
  (∀ j k g, (k, g) ∈ jobGroups jobs → j ∈ g →
     k = jobKey j ∧ j ∈ jobs ∧ resolved j = true) ∧
  (∀ j, j ∈ jobs → resolved j = true →
     (jobKey j, jobsOfKey (jobKey j) jobs) ∈ jobGroups jobs ∧
     j ∈ jobsOfKey (jobKey j) jobs) ∧
  concat (jobGroups jobs).*2 ≡ₚ resolvedJobs jobs.
Proof.
  split_and!.
  - intros j k g. apply jobGroups_elem.
  - intros j Hj Hres.
    assert (j ∈ resolvedJobs jobs) as Hin by by apply elem_of_resolvedJobs.
    split.
    + rewrite jobGroups_entries. apply list_elem_of_fmap.
      exists (jobKey j). split; [done|].
      apply elem_of_firstSeen, list_elem_of_fmap. eauto.
    + by apply list_elem_of_filter.
  - apply jobGroups_concat.
Qed.

End GroupProofs.

(** ** The worksheet as a whole *)

Section SheetProofs.

Variable tz : Z → Z.

Lemma onQuantity_app g1 g2 : onQuantity (g1 ++ g2) = onQuantity g1 + onQuantity g2.
Proof. unfold onQuantity. by rewrite List.filter_app, fmap_app, sumZ_app. Qed.

Lemma onQuantity_perm g1 g2 : g1 ≡ₚ g2 → onQuantity g1 = onQuantity g2.
Proof.
  intros H. unfold onQuantity. by apply sumZ_perm, fmap_Permutation, filter_perm.
Qed.

Lemma onQuantity_nonneg group :
  Forall nonnegQuantity group → 0 ≤ onQuantity group.
Proof.
  unfold onQuantity. induction 1 as [|j group (q & Hq & Hpos) _ IH]; [done|].
  cbn [List.filter]. destruct (isOn j); [|done].
  rewrite fmap_cons. simpl. rewrite Hq. simpl.
  change (foldr Z.add 0 ?l) with (sumZ l). lia.
Qed.

(** A total of at most [2^53] bounds every ON quantity. *)
Lemma onQuantitiesSafe_total group :
  Forall nonnegQuantity group → onQuantity group ≤ 2 ^ 53 →
  onQuantitiesSafe group.
Proof.
  unfold onQuantitiesSafe, onQuantity.
  induction 1 as [|j group (q & Hq & Hpos) Hg IH]; [done|].
  cbn [List.filter]. pose proof (onQuantity_nonneg _ Hg) as Hrest.
  unfold onQuantity in Hrest. destruct (isOn j); [|done].
  rewrite fmap_cons. simpl. rewrite Hq. simpl.
  change (foldr Z.add 0 ?l) with (sumZ l). intros Hle.
  constructor; [rewrite Hq; simpl; lia|]. apply IH. lia.
Qed.

Lemma allRows_total_groups (groups : list (string * list Job)) :
  Forall (λ kg, Forall nonnegQuantity kg.2) groups →
  onQuantity (concat groups.*2) ≤ 2 ^ 53 →
  sumQuantity (flat_map (λ kg, reconcileGroup tz kg.2) groups)
  = onQuantity (concat groups.*2).
Proof.
  induction 1 as [|kg groups Hkg Hgroups IH]; [done|].
  cbn [flat_map]. rewrite fmap_cons. cbn [concat].
  rewrite onQuantity_app. intros Hle.
  assert (0 ≤ onQuantity (concat groups.*2)) as Hrest.
  { apply onQuantity_nonneg, Forall_concat, Forall_fmap.
    eapply Forall_impl; [exact Hgroups|]. by intros ? ?. }
  pose proof (onQuantity_nonneg _ Hkg).
  rewrite sumQuantity_app, IH by lia.
  rewrite reconcileGroup_total; [done|done|].
  apply onQuantitiesSafe_total; [done|lia].
Qed.

Lemma jobGroups_nonneg jobs :
  Forall nonnegQuantity jobs →
  Forall (λ kg, Forall nonnegQuantity kg.2) (jobGroups jobs).
Proof.
  intros Hjobs. apply Forall_forall. intros [k g] Hkg. simpl.
  apply Forall_forall. intros j Hj.
  destruct (jobGroups_elem jobs j k g Hkg Hj) as (_ & Hin & _).
  by eapply Forall_forall.
Qed.

Lemma allRows_total jobs :
  Forall nonnegQuantity jobs →
  onQuantity (resolvedJobs jobs) ≤ 2 ^ 53 →
  sumQuantity (allRows tz jobs) = onQuantity (resolvedJobs jobs).
Proof.
  intros Hjobs Hle. unfold allRows.
  pose proof (onQuantity_perm _ _ (jobGroups_concat jobs)) as Hperm.
  rewrite allRows_total_groups; [done|by apply jobGroups_nonneg|lia].
Qed.

Lemma worksheetRows_last jobs :
  last (worksheetRows tz jobs).1
  = Some (SummaryRow "Total Products:"
            (totalQuantity (aggregate (allRows tz jobs)))).
Proof.
  unfold worksheetRows. cbv zeta. cbn [fst].
  rewrite last_app. reflexivity.
Qed.

(** X7. When the quantities of all jobs are non-negative integers and
    the ON jobs that have a product and a machine total at most [2^53] (so
    that no subtraction of the pairing and no addition of the merging and
    of the total leaves the integers that a double holds), the last row of
    the worksheet, the line [Total Products:], shows the total quantity of
    these ON jobs: nothing of it is lost or counted twice by the grouping,
    the pairing and the merging. *)
Theorem total_products_is_on_quantity jobs :
  Forall nonnegQuantity jobs →
  onQuantity (resolvedJobs jobs) ≤ 2 ^ 53 →
  last (worksheetRows tz jobs).1
  = Some (SummaryRow "Total Products:" (onQuantity (resolvedJobs jobs))).
Proof.
  intros Hjobs Hle.
  by rewrite worksheetRows_last, totalQuantity_sum, aggregate_sum, allRows_total.
Qed.

Lemma aggregate_nil_inv rws : aggregate rws = [] → rws = [].
Proof.
  intros Hnil. destruct rws as [|r rws]; [done|].
  assert (r ∈ firstBy groupKey (r :: rws)) as Hr by (simpl; left).
  rewrite aggregate_groupKey in Hnil. apply fmap_nil_inv in Hnil.
  rewrite Hnil in Hr. by apply elem_of_nil in Hr.
Qed.

Lemma worksheetRows_cases jobs :
  (jobs = [] ∧
   worksheetRows tz jobs
   = ([MessageRow noDataMessage; EmptyRow; SummaryRow "Total Products:" 0],
      0%nat)) ∨
  (jobs ≠ [] ∧
   worksheetRows tz jobs
   = ((DataRow ∘ fallbackRow tz <$> jobs)
        ++ [EmptyRow; SummaryRow "Total Products:" 0],
      length jobs)) ∨
  (jobs ≠ [] ∧ ∃ r merged,
   worksheetRows tz jobs
   = ((DataRow <$> r :: merged)
        ++ [EmptyRow; SummaryRow "Total Products:" (totalQuantity (r :: merged))],
      S (length merged))).
Proof.
  unfold worksheetRows. cbv zeta.
  destruct (aggregate (allRows tz jobs)) as [|r merged] eqn:Hagg.
  - destruct jobs as [|j jobs]; [by left|]. right. left. by split.
  - right. right. split; [by intros ->|]. by exists r, merged.
Qed.

(** X8. The row [No data found for the selected criteria.] is on the
    worksheet exactly when the query has returned no job; whenever there is
    a job, the worksheet has at least one row of data, from the merged rows
    or else from the fallback. *)
Theorem placeholder_iff_no_jobs jobs :
  (MessageRow noDataMessage ∈ (worksheetRows tz jobs).1 ↔ jobs = []) ∧
  ((worksheetRows tz jobs).2 = 0%nat ↔ jobs = []) ∧
  (jobs ≠ [] → ∃ r, DataRow r ∈ (worksheetRows tz jobs).1).
Proof.
  destruct (worksheetRows_cases jobs)
    as [[-> ->]|[[Hjobs ->]|[Hjobs (r & merged & ->)]]]; cbn [fst snd].
  - split_and!; [|done|done]. split; [done|]. intros _. left.
  - split_and!.
    + split; [|done].
      rewrite elem_of_app, list_elem_of_fmap, !elem_of_cons, elem_of_nil.
      intros [(j & ? & _)|[?|[?|[]]]]; done.
    + split; [|done]. by destruct jobs.
    + intros _. destruct jobs as [|j jobs]; [done|].
      exists (fallbackRow tz j). left.
  - split_and!.
    + split; [|done].
      rewrite elem_of_app, list_elem_of_fmap, !elem_of_cons, elem_of_nil.
      intros [(j & ? & _)|[?|[?|[]]]]; done.
    + done.
    + intros _. exists r. left.
Qed.

End SheetProofs.

(** ** The machine number *)

Section MachineProofs.

Lemma allDigits_takeDigits s : allDigits (takeDigits s) = true.
Proof.
  induction s as [|c s IH]; [done|]. simpl.
  destruct (isDigit c) eqn:Hc; [|done]. simpl. by rewrite Hc.
Qed.

Lemma allDigits_matchHashDigits s m :
  matchHashDigits s = Some m → allDigits m = true.
Proof.
  induction s as [|c s IH]; simpl; [done|].
  case_match; [|done]. intros [= <-]. apply allDigits_takeDigits.
Qed.

Lemma allDigits_matchTrailingDigits s m :
  matchTrailingDigits s = Some m → allDigits m = true.
Proof.
  induction s as [|c s IH]; [done|].
  cbn [matchTrailingDigits]. case_match eqn:Hd; [|done]. by intros [= <-].
Qed.

(** X9. The machine number is made of digits only (it may be empty),
    whatever the name of the machine is. *)
Theorem machine_number_is_digits name :
  allDigits (getMachineNumber name) = true.
Proof.
  unfold getMachineNumber. case_match; [done|].
  case_match eqn:H1; [by eapply allDigits_matchHashDigits|].
  case_match eqn:H2; [by eapply allDigits_matchTrailingDigits|done].
Qed.

Lemma takeDigits_app ds r :
  allDigits ds = true → startsWithDigit r = false → takeDigits (ds +:+ r) = ds.
Proof.
  intros Hds Hr. induction ds as [|c ds IH].
  - rewrite append_nil. by destruct r as [|c r]; [|simpl in *; rewrite Hr].
  - simpl in Hds. apply andb_prop in Hds as [Hc Hds].
    rewrite append_cons. simpl. rewrite Hc. by rewrite IH.
Qed.

Lemma startsWithDigit_app p r :
  p ≠ "" → startsWithDigit (p +:+ r) = startsWithDigit p.
Proof. by destruct p. Qed.

Lemma isHash_not_digit c : isHash c = true → isDigit c = false.
Proof. by destruct c as [[] [] [] [] [] [] [] []]. Qed.

Lemma matchHashDigits_app p ds r :
  matchHashDigits p = None → ds ≠ "" → allDigits ds = true →
  startsWithDigit r = false →
  matchHashDigits (p +:+ String "#" (ds +:+ r)) = Some ds.
Proof.
  intros Hp Hne Hds Hr. induction p as [|c p IH].
  - rewrite append_nil. cbn [matchHashDigits].
    rewrite startsWithDigit_app by done.
    destruct ds as [|d ds]; [done|]. simpl in Hds.
    apply andb_prop in Hds as [Hd Hds]. cbn [startsWithDigit]. rewrite Hd.
    change (isHash "#") with true. cbn [andb].
    rewrite takeDigits_app; [done| |done]. simpl. by rewrite Hd, Hds.
  - rewrite append_cons. cbn [matchHashDigits] in *.
    destruct (isHash c && startsWithDigit p) eqn:Hhd; [done|].
    destruct p as [|c' p].
    + rewrite append_nil. cbn [startsWithDigit].
      change (isDigit "#") with false. rewrite andb_false_r. by apply IH.
    + rewrite startsWithDigit_app by done. rewrite Hhd. by apply IH.
Qed.

Lemma getMachineNumber_Some name :
  name ≠ "" →
  getMachineNumber (Some name)
  = match matchHashDigits name with
    | Some m => m
    | None =>
        match matchTrailingDigits name with
        | Some m => m
        | None => ""
        end
    end.
Proof. by destruct name. Qed.

(** X10. When the name of the machine has a [#] that a digit follows, the
    machine number is the run of digits after the first such [#], whatever
    comes later in the name (digits at the end of the name included). *)
Theorem machine_number_after_hash p ds r :
  matchHashDigits p = None → ds ≠ "" → allDigits ds = true →
  startsWithDigit r = false →
  getMachineNumber (Some (p +:+ String "#" (ds +:+ r))) = ds.
Proof.
  intros Hp Hne Hds Hr.
  rewrite getMachineNumber_Some by by destruct p.
  by rewrite matchHashDigits_app.
Qed.

Lemma allDigits_app a b : allDigits (a +:+ b) = allDigits a && allDigits b.
Proof.
  induction a as [|c a IH]; [done|]. rewrite append_cons. simpl.
  by rewrite IH, andb_assoc.
Qed.

Lemma endsWithDigit_allDigits p :
  p ≠ "" → endsWithDigit p = false → allDigits p = false.
Proof.
  induction p as [|c p IH]; [done|]. intros _ Hend.
  destruct p as [|c' p].
  - simpl in *. by rewrite Hend.
  - cbn [endsWithDigit] in Hend. cbn [allDigits].
    change (allDigits (String c' p)) with (isDigit c' && allDigits p) in IH.
    rewrite IH by done. apply andb_false_r.
Qed.

Lemma matchTrailingDigits_app p ds :
  endsWithDigit p = false → ds ≠ "" → allDigits ds = true →
  matchTrailingDigits (p +:+ ds) = Some ds.
Proof.
  intros Hp Hne Hds. induction p as [|c p IH].
  - rewrite append_nil. destruct ds as [|d ds]; [done|].
    cbn [matchTrailingDigits]. by rewrite Hds.
  - rewrite append_cons. cbn [matchTrailingDigits].
    rewrite <-append_cons, allDigits_app.
    rewrite endsWithDigit_allDigits by done. cbn [andb].
    apply IH. destruct p as [|c' p]; [done|]. exact Hp.
Qed.

Lemma matchTrailingDigits_none s :
  endsWithDigit s = false → matchTrailingDigits s = None.
Proof.
  induction s as [|c s IH]; [done|]. intros Hend.
  cbn [matchTrailingDigits].
  rewrite endsWithDigit_allDigits by done.
  apply IH. destruct s as [|c' s]; [done|]. exact Hend.
Qed.

(** X11. When the name of the machine has no [#] that a digit follows, the
    machine number is the run of digits at the end of the name, and it is
    empty when the name does not end in a digit. *)
Theorem machine_number_trailing :
  (∀ p ds,
     matchHashDigits (p +:+ ds) = None → endsWithDigit p = false →
     ds ≠ "" → allDigits ds = true →
     getMachineNumber (Some (p +:+ ds)) = ds) ∧
  (∀ name,
     matchHashDigits name = None → endsWithDigit name = false →
     getMachineNumber (Some name) = "").
Proof.
  split.
  - intros p ds Hhash Hp Hne Hds.
    rewrite getMachineNumber_Some by (destruct p; [by destruct ds|done]).
    by rewrite Hhash, matchTrailingDigits_app.
  - intros name Hhash Hend. destruct (decide (name = "")) as [->|Hne]; [done|].
    rewrite getMachineNumber_Some by done.
    by rewrite Hhash, matchTrailingDigits_none.
Qed.

End MachineProofs.

(** ** One product and one machine per group *)

Section JobKeyProofs.

Lemma noUnderscore_app a b : noUnderscore (a +:+ b) = noUnderscore a && noUnderscore b.
Proof.
  induction a as [|x a IH]; [done|].
  rewrite append_cons. simpl. by rewrite IH, andb_assoc.
Qed.

(** A key is split at its first separator in one way only. *)
Lemma split_first_underscores a a' b b' :
  noUnderscore a = true → noUnderscore a' = true →
  a +:+ String "_" (String "_" b) = a' +:+ String "_" (String "_" b') →
  a = a' ∧ b = b'.
Proof.
  intros Ha Ha'. revert a' Ha'.
  induction a as [|x a IH]; intros [|x' a'] Ha';
    rewrite ?append_nil, ?append_cons; intros Heq.
  - by simplify_eq.
  - by simplify_eq.
  - by simplify_eq.
  - simpl in Ha, Ha'. apply andb_prop in Ha as [_ Ha].
    apply andb_prop in Ha' as [_ Ha']. simplify_eq.
    destruct (IH Ha a' Ha') as [-> ->]; done.
Qed.

Lemma jobKey_inj j j' :
  noUnderscore (productId j) = true → noUnderscore (productId j') = true →
  jobKey j = jobKey j' →
  productId j = productId j' ∧ machineId j = machineId j'.
Proof. intros Hj Hj' Heq. by apply split_first_underscores. Qed.

(** X12. When no product identifier holds an underscore (as with numeric
    identifiers), the jobs of one group all have the same product and the
    same machine. *)
Theorem group_has_one_product_and_machine jobs k g j j' :
  Forall (λ x, noUnderscore (productId x) = true) jobs →
  (k, g) ∈ jobGroups jobs → j ∈ g → j' ∈ g →
  productId j = productId j' ∧ machineId j = machineId j'.
Proof.
  intros Hids Hkg Hj Hj'.
  destruct (jobGroups_elem jobs j k g Hkg Hj) as (Hk & Hin & _).
  destruct (jobGroups_elem jobs j' k g Hkg Hj') as (Hk' & Hin' & _).
  pose proof (proj1 (Forall_forall _ _) Hids) as Hall.
  apply jobKey_inj; [by apply (Hall j)|by apply (Hall j')|congruence].
Qed.

End JobKeyProofs.

(** ** The date of a row and its clock time *)

Section DateProofs.

Variable tz : Z → Z.

Lemma isoDate_same_day t t' :
  t `div` 86400000 = t' `div` 86400000 → isoDate t = isoDate t'.
Proof. unfold isoDate. by intros ->. Qed.

Lemma minute_of_day t :
  getHours tz t * 60 + getMinutes tz t = (localTime tz t `div` 60000) `mod` 1440.
Proof.
  unfold getHours, getMinutes.
  pose proof (Z.div_mod (localTime tz t) 60000).
  assert (localTime tz t `div` 3600000 = (localTime tz t `div` 60000) `div` 60) as ->.
  { by rewrite Z.div_div by lia. }
  set (m := localTime tz t `div` 60000).
  pose proof (Z.div_mod m 60). pose proof (Z.div_mod (m `div` 60) 24).
  pose proof (Z.div_mod m 1440).
  pose proof (Z.mod_pos_bound m 60). pose proof (Z.mod_pos_bound (m `div` 60) 24).
  pose proof (Z.mod_pos_bound m 1440).
  assert (m `div` 1440 = (m `div` 60) `div` 24) by (by rewrite Z.div_div by lia).
  lia.
Qed.

(** X13. The date of a row is the UTC date of the ON time, while the ON
    time is a local clock time. With local time ahead of UTC, a row whose
    ON time is earlier in the day than the offset carries the date of the
    day before the local day; with local time behind UTC, a row whose ON
    time is within the offset of midnight carries the date of the day
    after; in all other cases the date is the local date. *)
Theorem row_date_is_utc_date onJob offJob pairQty :
  -1440 < tz (onTimeOf (job onJob)) < 1440 →
  let t := onTimeOf (job onJob) in
  let r := matchedRow tz onJob offJob pairQty in
  let minute := getHours tz t * 60 + getMinutes tz t in
  (minute < tz t → row_date r = isoDate (localTime tz t - 86400000)) ∧
  (tz t ≤ minute < 1440 + tz t → row_date r = isoDate (localTime tz t)) ∧
  (1440 + tz t ≤ minute → row_date r = isoDate (localTime tz t + 86400000)).
Proof.
  intros Htz t r minute. unfold minute. rewrite minute_of_day.
  unfold r. cbn [row_date matchedRow]. fold t.
  assert (∃ k, t = 60000 * k) as [k Hk].
  { exists (newDate (createdAt (job onJob)) `div` 60000).
    apply setSeconds00_minutes. }
  unfold localTime in *. fold t in Htz. set (off := tz t) in *.
  replace ((t + off * 60000) `div` 60000) with (k + off)
    by (rewrite Hk; apply Z.div_unique with 0; lia).
  pose proof (Z.div_mod (k + off) 1440). pose proof (Z.mod_pos_bound (k + off) 1440).
  set (q := (k + off) `div` 1440) in *. set (m := (k + off) `mod` 1440) in *.
  split_and!; intros Hm; apply isoDate_same_day.
  - rewrite <-(Z.div_unique t 86400000 (q - 1) (60000 * (m - off + 1440)))
      by lia.
    apply Z.div_unique with (60000 * m); lia.
  - rewrite <-(Z.div_unique t 86400000 q (60000 * (m - off))) by lia.
    apply Z.div_unique with (60000 * m); lia.
  - rewrite <-(Z.div_unique t 86400000 (q + 1) (60000 * (m - off - 1440)))
      by lia.
    apply Z.div_unique with (60000 * m); lia.
Qed.

End DateProofs.

(** ** The date range *)

Section RangeEquations.

Variable tz : Z → Z.
Variable tzLocal : Z → Z.
Variable parseDate : string → option Z.

Lemma getDateRange_daily now sp ep :
  truthyStr sp && truthyStr ep = false →
  getDateRange tz tzLocal parseDate now "daily" sp ep
  = (Some (setHours tz tzLocal 0 0 0 0 now),
     Some (setHours tz tzLocal 23 59 59 999 now)).
Proof. intros Hno. unfold getDateRange. rewrite Hno. reflexivity. Qed.

Lemma getDateRange_weekly now sp ep :
  truthyStr sp && truthyStr ep = false →
  getDateRange tz tzLocal parseDate now "weekly" sp ep
  = (Some (setHours tz tzLocal 0 0 0 0
             (setDate tz tzLocal (getDate (tz now) now - getDay (tz now) now) now)),
     Some (setHours tz tzLocal 23 59 59 999 now)).
Proof. intros Hno. unfold getDateRange. rewrite Hno. reflexivity. Qed.

Lemma getDateRange_monthly now sp ep :
  truthyStr sp && truthyStr ep = false →
  getDateRange tz tzLocal parseDate now "monthly" sp ep
  = (Some (setHours tz tzLocal 0 0 0 0 (setDate tz tzLocal 1 now)),
     Some (setHours tz tzLocal 23 59 59 999 now)).
Proof. intros Hno. unfold getDateRange. rewrite Hno. reflexivity. Qed.

Lemma getDateRange_other now reportType sp ep :
  truthyStr sp && truthyStr ep = false →
  reportType ≠ "daily" → reportType ≠ "weekly" → reportType ≠ "monthly" →
  getDateRange tz tzLocal parseDate now reportType sp ep
  = (Some now, Some (setHours tz tzLocal 23 59 59 999 now)).
Proof.
  intros Hno H1%String.eqb_neq H2%String.eqb_neq H3%String.eqb_neq.
  unfold getDateRange. by rewrite Hno, H1, H2, H3.
Qed.

Lemma getDateRange_custom now reportType sp ep :
  truthyStr sp && truthyStr ep = true →
  getDateRange tz tzLocal parseDate now reportType sp ep
  = (setHours tz tzLocal 0 0 0 0 <$> parseDate (default "" sp),
     setHours tz tzLocal 23 59 59 999
       <$> (setHours tz tzLocal 23 59 59 999 <$> parseDate (default "" ep))).
Proof. intros Hboth. unfold getDateRange. by rewrite Hboth. Qed.

End RangeEquations.

(** *** A zone of fixed offset

    The properties of the ranges are for a zone whose offset never
    changes, [offset] minutes east of UTC: there every local day has
    86400000 ms. *)

Section RangeProofs.

Variable offset : Z.
Variable parseDate : string → option Z.

Local Abbreviation zone := (fixedZone offset).

Lemma setHours_fixed h m sec ms t :
  setHours zone zone h m sec ms t
  = localDay offset t * 86400000
    + (h * 3600000 + m * 60000 + sec * 1000 + ms) - offset * 60000.
Proof. reflexivity. Qed.

Lemma setDate_fixed n t :
  setDate zone zone n t = t + (n - getDate offset t) * 86400000.
Proof. unfold setDate, utcOfLocal, localTime, fixedZone. lia. Qed.

Lemma setHours_spec h m sec ms t :
  0 ≤ h * 3600000 + m * 60000 + sec * 1000 + ms < 86400000 →
  localDay offset (setHours zone zone h m sec ms t) = localDay offset t ∧
  (setHours zone zone h m sec ms t + offset * 60000) `mod` 86400000
  = h * 3600000 + m * 60000 + sec * 1000 + ms.
Proof.
  intros Hday. rewrite setHours_fixed. unfold localDay.
  set (d := (t + offset * 60000) `div` 86400000).
  set (x := h * 3600000 + m * 60000 + sec * 1000 + ms) in *.
  replace (d * 86400000 + x - offset * 60000 + offset * 60000)
    with (86400000 * d + x) by lia.
  split.
  - symmetry. apply Z.div_unique with x; [by left|done].
  - symmetry. apply Z.mod_unique with d; [by left|done].
Qed.

Lemma setHours_start t :
  setHours zone zone 0 0 0 0 t ≤ t < setHours zone zone 0 0 0 0 t + 86400000 ∧
  localMidnight offset (setHours zone zone 0 0 0 0 t) ∧
  localDay offset (setHours zone zone 0 0 0 0 t) = localDay offset t.
Proof.
  destruct (setHours_spec 0 0 0 0 t) as [Hd Hm]; [lia|].
  split_and!; [| |exact Hm|exact Hd]; rewrite setHours_fixed; unfold localDay;
    pose proof (Z.div_mod (t + offset * 60000) 86400000);
    pose proof (Z.mod_pos_bound (t + offset * 60000) 86400000); lia.
Qed.

Lemma setHours_end t :
  setHours zone zone 23 59 59 999 t = setHours zone zone 0 0 0 0 t + 86399999 ∧
  t ≤ setHours zone zone 23 59 59 999 t ∧
  localDayEnd offset (setHours zone zone 23 59 59 999 t) ∧
  localDay offset (setHours zone zone 23 59 59 999 t) = localDay offset t.
Proof.
  destruct (setHours_spec 23 59 59 999 t) as [Hd Hm]; [lia|].
  split_and!; [| |exact Hm|exact Hd]; rewrite !setHours_fixed; unfold localDay;
    pose proof (Z.div_mod (t + offset * 60000) 86400000);
    pose proof (Z.mod_pos_bound (t + offset * 60000) 86400000); lia.
Qed.

Lemma setHours_same_day h m sec ms t t' :
  localDay offset t = localDay offset t' →
  setHours zone zone h m sec ms t = setHours zone zone h m sec ms t'.
Proof. rewrite !setHours_fixed. by intros ->. Qed.

(** X14. In a zone of fixed offset, without both dates in the request, the
    range of a daily report is the local day of the request: it starts at
    the local midnight before the request, ends 86399999 ms later, and
    holds the instant of the request. *)
Theorem daily_range_is_today now sp ep :
  truthyStr sp && truthyStr ep = false →
  ∃ s e,
    getDateRange zone zone parseDate now "daily" sp ep = (Some s, Some e) ∧
    localMidnight offset s ∧ e = s + 86399999 ∧ s ≤ now ≤ e.
Proof.
  intros Hno. rewrite getDateRange_daily by done.
  destruct (setHours_start now) as (? & ? & _).
  destruct (setHours_end now) as (? & ? & _).
  eexists _, _. split; [reflexivity|]. split_and!; [done|done|lia|lia].
Qed.

Lemma localDay_shift t n :
  localDay offset (t + n * 86400000) = localDay offset t + n.
Proof.
  unfold localDay.
  replace (t + n * 86400000 + offset * 60000)
    with (t + offset * 60000 + n * 86400000) by lia.
  by rewrite Z.div_add by lia.
Qed.

(** X15. In a zone of fixed offset, without both dates in the request, the
    range of a weekly report starts at the local midnight that begins the
    last Sunday on or before the request (less than seven days back), and
    ends with the last millisecond of the local day of the request. *)
Theorem weekly_range_starts_on_sunday now sp ep :
  truthyStr sp && truthyStr ep = false →
  ∃ s e,
    getDateRange zone zone parseDate now "weekly" sp ep = (Some s, Some e) ∧
    localMidnight offset s ∧ getDay offset s = 0 ∧
    s ≤ now < s + 7 * 86400000 ∧
    now ≤ e ∧ localDayEnd offset e ∧ localDay offset e = localDay offset now.
Proof.
  intros Hno. rewrite getDateRange_weekly by done.
  eexists _, _. split; [reflexivity|].
  change (fixedZone offset now) with offset.
  set (s := setDate zone zone _ now).
  assert (s = now + (- getDay offset now) * 86400000) as Hs.
  { unfold s. rewrite setDate_fixed. f_equal. lia. }
  assert (localDay offset s = localDay offset now - getDay offset now) as Hday.
  { rewrite Hs, localDay_shift. lia. }
  destruct (setHours_start s) as (Hle & Hmid & Hd).
  destruct (setHours_end now) as (_ & ? & ? & ?).
  pose proof (Z.mod_pos_bound (localDay offset now + 4) 7).
  split_and!; try done.
  - unfold getDay in *. rewrite Hd, Hday.
    pose proof (Z.div_mod (localDay offset now + 4) 7).
    symmetry. apply Z.mod_unique with ((localDay offset now + 4) `div` 7); lia.
  - unfold getDay in *. lia.
  - unfold getDay in *. lia.
Qed.

(** *** The first day of a month *)

Lemma civilFromDays_first n :
  civilFromDays (n - ((civilFromDays n).2 - 1)) = ((civilFromDays n).1, 1) ∧
  1 ≤ (civilFromDays n).2 ≤ 31.
Proof.
  unfold civilFromDays. cbv zeta. cbn [fst snd].
  set (z := n + 719468). set (era := z `div` 146097).
  set (doe := z - era * 146097).
  assert (0 ≤ doe < 146097) as Hdoe
    by (unfold doe, era; Z.div_mod_to_equations; lia).
  set (yoe := (doe - doe `div` 1460 + doe `div` 36524 - doe `div` 146096)
                `div` 365).
  assert (0 ≤ yoe ≤ 399) as Hyoe by (unfold yoe; Z.div_mod_to_equations; lia).
  set (ys := 365 * yoe + yoe `div` 4 - yoe `div` 100).
  set (doy := doe - ys).
  assert (0 ≤ doy ≤ 365) as Hdoy
    by (unfold doy, ys, yoe; Z.div_mod_to_equations; lia).
  set (mp := (5 * doy + 2) `div` 153).
  assert (0 ≤ mp ≤ 11) as Hmp by (unfold mp; Z.div_mod_to_equations; lia).
  set (d := doy - (153 * mp + 2) `div` 5 + 1).
  assert (1 ≤ d ≤ 31) as Hd by (unfold d, mp; Z.div_mod_to_equations; lia).
  split; [|done].
  set (z' := n - (d - 1) + 719468).
  set (doe' := doe - (d - 1)).
  assert (ys ≤ doe') as Hlow
    by (unfold doe', d, doy, mp; Z.div_mod_to_equations; lia).
  assert (0 ≤ ys) as Hys by (unfold ys; Z.div_mod_to_equations; lia).
  assert (z' `div` 146097 = era) as Hera.
  { symmetry. apply Z.div_unique with doe'; [left; unfold doe'; lia|].
    unfold z', doe', doe, z. lia. }
  rewrite Hera.
  replace (z' - era * 146097) with doe' by (unfold z', doe', doe, z; lia).
  assert ((doe' - doe' `div` 1460 + doe' `div` 36524 - doe' `div` 146096)
            `div` 365 = yoe) as Hy.
  { unfold yoe, ys, doe' in *. clearbody doe d. Z.div_mod_to_equations. lia. }
  rewrite Hy. fold ys.
  replace (doe' - ys) with ((153 * mp + 2) `div` 5)
    by (unfold doe', d, doy; lia).
  assert ((5 * ((153 * mp + 2) `div` 5) + 2) `div` 153 = mp) as ->
    by (Z.div_mod_to_equations; lia).
  f_equal. lia.
Qed.

(** X16. In a zone of fixed offset, without both dates in the request, the
    range of a monthly report starts at the local midnight that begins the
    first day of the month of the request (same year, same month, day 1),
    and ends with the last millisecond of the local day of the request. *)
Theorem monthly_range_starts_on_first now sp ep :
  truthyStr sp && truthyStr ep = false →
  ∃ s e,
    getDateRange zone zone parseDate now "monthly" sp ep = (Some s, Some e) ∧
    localMidnight offset s ∧
    civilFromDays (localDay offset s)
    = ((civilFromDays (localDay offset now)).1, 1) ∧
    s ≤ now ≤ e ∧ localDayEnd offset e.
Proof.
  intros Hno. rewrite getDateRange_monthly by done.
  eexists _, _. split; [reflexivity|].
  set (s := setDate zone zone 1 now).
  destruct (civilFromDays_first (localDay offset now)) as [Hfirst Hdom].
  assert (s = now + (- (getDate offset now - 1)) * 86400000) as Hs.
  { unfold s. rewrite setDate_fixed. f_equal. lia. }
  assert (localDay offset s = localDay offset now - (getDate offset now - 1))
    as Hday by (rewrite Hs, localDay_shift; lia).
  destruct (setHours_start s) as (Hle & Hmid & Hd).
  destruct (setHours_end now) as (_ & ? & ? & _).
  fold (getDate offset now) in Hdom.
  split_and!; try done.
  - rewrite Hd, Hday. exact Hfirst.
  - lia.
Qed.

(** X17. In a zone of fixed offset, with both dates in the request and
    both of them dates that [new Date] can read, the range is made of
    whole local days, whatever the report type and the instant of the
    request are: it starts at the local midnight of the day of the start
    date and ends with the last millisecond of the day of the end date.
    Its length is the number of days from the one to the other, so the
    range is empty when the end date is on an earlier day than the start
    date. A date that [new Date] cannot read gives an invalid bound. *)
Theorem custom_range_is_whole_days now reportType s e :
  truthyStr (Some s) && truthyStr (Some e) = true →
  (∀ ts te, parseDate s = Some ts → parseDate e = Some te →
     ∃ r1 r2,
       getDateRange zone zone parseDate now reportType (Some s) (Some e)
       = (Some r1, Some r2) ∧
       localMidnight offset r1 ∧
       localDay offset r1 = localDay offset ts ∧
       localDayEnd offset r2 ∧
       localDay offset r2 = localDay offset te ∧
       r2 - r1 + 1
       = (localDay offset te - localDay offset ts + 1) * 86400000) ∧
  (parseDate s = None →
   (getDateRange zone zone parseDate now reportType (Some s) (Some e)).1
   = None) ∧
  (parseDate e = None →
   (getDateRange zone zone parseDate now reportType (Some s) (Some e)).2
   = None).
Proof.
  intros Hboth. rewrite getDateRange_custom by done. cbn [fst snd default].
  unfold id. split_and!; [|by intros ->|by intros ->].
  intros ts te -> ->. cbn [fmap option_fmap option_map].
  eexists _, _. split; [reflexivity|].
  destruct (setHours_start ts) as (_ & Hmid & Hd).
  destruct (setHours_end te) as (_ & _ & _ & Hd1).
  rewrite (setHours_same_day _ _ _ _ _ _ Hd1).
  destruct (setHours_end te) as (He & _ & Hend & _).
  split_and!; try done.
  rewrite !setHours_fixed. lia.
Qed.

(** X18. For any other report type (the operation-wise report among them)
    without both dates in the request, the range starts at the instant of
    the request itself, not at a midnight: nothing recorded before the
    request is in the range. In a zone of fixed offset it ends with the
    last millisecond of that local day. *)
Theorem other_range_starts_now now reportType sp ep :
  truthyStr sp && truthyStr ep = false →
  reportType ≠ "daily" → reportType ≠ "weekly" → reportType ≠ "monthly" →
  (∀ tz tzLocal,
     (getDateRange tz tzLocal parseDate now reportType sp ep).1 = Some now) ∧
  ∃ e,
    getDateRange zone zone parseDate now reportType sp ep = (Some now, Some e) ∧
    now ≤ e < now + 86400000 ∧ localDayEnd offset e.
Proof.
  intros Hno H1 H2 H3. split.
  { intros tz tzLocal. by rewrite getDateRange_other. }
  rewrite getDateRange_other by done.
  eexists. split; [reflexivity|].
  destruct (setHours_end now) as (He & ? & ? & _).
  destruct (setHours_start now) as (? & _).
  split_and!; try done. lia.
Qed.

End RangeProofs.

(** ** The handler *)

Section HandlerProofs.

Variable tz : Z → Z.
Variable tzLocal : Z → Z.
Variable parseDate : string → option Z.
Variable toUpperCase : string → string.
Variable findJobs : string → option Z → option Z → Thrown + list Job.
Variable findDispatched : option Z → option Z → Thrown + list Dispatched.
Variable createReport : string → option Thrown.
Variable writeBuffer : Worksheet → option Thrown.
Variable newHeaders : string → option Thrown.

Local Abbreviation GET' :=
  (GET tz tzLocal parseDate toUpperCase findJobs findDispatched createReport
     writeBuffer newHeaders).
Local Abbreviation sendFile' := (sendFile createReport writeBuffer newHeaders).

Lemma noSpace_replaceSpaces s : noSpace (replaceSpaces s) = true.
Proof.
  induction s as [|c s IH]; [done|]. simpl. rewrite IH.
  by destruct (Ascii.eqb_spec c " ") as [->|Hne]; [|apply Ascii.eqb_neq in Hne; rewrite Hne].
Qed.

Lemma truthyStr_orUndefined p : truthyStr (orUndefined p) = truthyStr p.
Proof. unfold orUndefined. by destruct (truthyStr p) eqn:Hp. Qed.

Lemma orStr_orUndefined p b : orStr (orUndefined p) b = orStr p b.
Proof.
  unfold orUndefined. destruct p as [s|]; [|done]. simpl.
  by destruct (String.eqb s "") eqn:Hs; simpl; rewrite ?Hs.
Qed.

Lemma dateStrOf_Some p t : dateStrOf p (Some t) = inr (orStr p (isoDate t)).
Proof.
  unfold dateStrOf. destruct p as [s|]; [|done]. simpl.
  by destruct (String.eqb s "").
Qed.

(** The three ways in which the end of a report goes. *)
Lemma sendFile_kinds sheetName sheet reportName :
  (∃ e, sendFile' sheetName sheet reportName = (serverError e, []) ∧
        createReport reportName = Some e) ∨
  (∃ e, sendFile' sheetName sheet reportName = (serverError e, [reportName]) ∧
        createReport reportName = None ∧
        (writeBuffer sheet = Some e ∨
         writeBuffer sheet = None ∧
         newHeaders (contentDispositionOf reportName) = Some e)) ∨
  (sendFile' sheetName sheet reportName
   = (XlsxResponse sheetName sheet (contentDispositionOf reportName),
      [reportName]) ∧
   createReport reportName = None ∧ writeBuffer sheet = None ∧
   newHeaders (contentDispositionOf reportName) = None).
Proof.
  unfold sendFile.
  destruct (createReport reportName) as [e|]; [left; by exists e|].
  destruct (writeBuffer sheet) as [e|];
    [right; left; exists e; split_and!; [done|done|by left]|].
  destruct (newHeaders _) as [e|];
    [right; left; exists e; split_and!; [done|done|by right]|].
  by right; right.
Qed.

(** X19. Every answer of the handler is of one of these kinds: status 400
    or 404 with no record of a download created; status 500, with no
    record, or with one record when the writing of the workbook or the
    making of the headers threw after the record was created; or the
    workbook with exactly one record created, whose name, with every space
    replaced by an underscore, is the file name of the
    [Content-Disposition] header, a header that [new Headers] took; that
    file name never holds a space. *)
Theorem answer_and_download_record now q :
  match GET' now q with
  | (JsonResponse status _, created) =>
      ((status = 400 ∨ status = 404) ∧ created = []) ∨
      (status = 500 ∧
       (created = [] ∨
        ∃ reportName sheet,
          created = [reportName] ∧ createReport reportName = None ∧
          (is_Some (writeBuffer sheet) ∨
           is_Some (newHeaders (contentDispositionOf reportName)))))
  | (XlsxResponse _ sheet header, created) =>
      ∃ reportName,
        created = [reportName] ∧
        header = "attachment; filename=" +:+ dquote
                   +:+ replaceSpaces reportName +:+ ".xlsx" +:+ dquote ∧
        noSpace (replaceSpaces reportName) = true ∧
        createReport reportName = None ∧ writeBuffer sheet = None ∧
        newHeaders header = None
  end.
Proof.
  assert (∀ e, match (serverError e, @nil string) with
               | (JsonResponse status _, created) =>
                   ((status = 400 ∨ status = 404) ∧ created = []) ∨
                   (status = 500 ∧
                    (created = [] ∨
                     ∃ reportName sheet,
                       created = [reportName] ∧
                       createReport reportName = None ∧
                       (is_Some (writeBuffer sheet) ∨
                        is_Some (newHeaders (contentDispositionOf reportName)))))
               | (XlsxResponse _ _ _, _) => False
               end) as Hthrown.
  { intros e. right. split; [done|by left]. }
  unfold GET.
  destruct (getDateRange _ _ _ _ _ _ _) as [startDate endDate].
  destruct (String.eqb _ "processWise").
  - destruct (negb _); [left; split; [by left|done]|].
    destruct (findJobs _ _ _) as [e|jobs]; [exact (Hthrown e)|].
    destruct (dateStrOf _ startDate) as [e|startDateStr]; [exact (Hthrown e)|].
    destruct (dateStrOf _ endDate) as [e|endDateStr]; [exact (Hthrown e)|].
    destruct (sendFile_kinds "Operation Wise Report"
                (OperationSheet (worksheetRows tz jobs).1)
                (default "" (q_process q) +:+ "_" +:+ startDateStr +:+ "_"
                   +:+ endDateStr +:+ "_report"))
      as [(e & -> & _)|[(e & -> & Hc & Hwh)|(-> & Hc & Hw & Hh)]].
    + exact (Hthrown e).
    + right. split; [done|]. right. eexists _, _. split_and!; [done|done|].
      destruct Hwh as [->|[_ ->]]; [by left|by right].
    + eexists. split_and!; try done. apply noSpace_replaceSpaces.
  - destruct (findDispatched _ _) as [e|products]; [exact (Hthrown e)|].
    destruct (_ =? _)%nat; [left; split; [by right|done]|].
    destruct (sendFile_kinds "Dispatched Products Report"
                (DispatchedSheet (dispatchedRows products))
                (toUpperCase (charAt0 (orStr (q_reportType q) "daily"))
                   +:+ slice1 (orStr (q_reportType q) "daily")
                   +:+ " Dispatched Products Report"))
      as [(e & -> & _)|[(e & -> & Hc & Hwh)|(-> & Hc & Hw & Hh)]].
    + exact (Hthrown e).
    + right. split; [done|]. right. eexists _, _. split_and!; [done|done|].
      destruct Hwh as [->|[_ ->]]; [by left|by right].
    + eexists. split_and!; try done. apply noSpace_replaceSpaces.
Qed.

Lemma foldl_dispatched (a : Z) (l : list Dispatched) :
  foldl (λ sum p, sum + d_quantity p) a l = a + sumZ (d_quantity <$> l).
Proof.
  revert a. induction l as [|p l IH]; intros a.
  - simpl. lia.
  - cbn [foldl]. rewrite IH, fmap_cons. simpl. lia.
Qed.

Lemma sendFile_sent sheetName sheet reportName :
  createReport reportName = None → writeBuffer sheet = None →
  newHeaders (contentDispositionOf reportName) = None →
  sendFile' sheetName sheet reportName
  = (XlsxResponse sheetName sheet (contentDispositionOf reportName),
     [reportName]).
Proof. unfold sendFile. by intros -> -> ->. Qed.

Lemma sendFile_refused sheetName sheet reportName e :
  createReport reportName = None → writeBuffer sheet = None →
  newHeaders (contentDispositionOf reportName) = Some e →
  sendFile' sheetName sheet reportName
  = (JsonResponse 500 (errorMessage e), [reportName]).
Proof. unfold sendFile. by intros -> -> ->. Qed.

(** X20. A request for the operation-wise report without the name of the
    operation is answered with status 400. With the name, and without both
    dates in the request, the jobs are asked of the store for the range
    that starts at the instant of the request and ends where [setHours]
    puts the end of that local day. When the query throws, the answer is
    status 500 with the message, and no record. Otherwise the record of
    the download is created under the name made of the operation and the
    two dates; then, when the workbook is written and [new Headers] takes
    the header, the workbook holds the worksheet rows of exactly these
    jobs, and when [new Headers] refuses the header (the name of the
    operation comes from the request), the answer is status 500 although
    the record has been created. *)
Theorem process_wise_request now q :
  q_reportType q = Some "processWise" →
  (truthyStr (q_process q) = false →
   GET' now q
   = (JsonResponse 400
        "Operation/Machine is required for process-wise report.", [])) ∧
  (∀ p, q_process q = Some p → p ≠ "" →
     truthyStr (q_startDate q) && truthyStr (q_endDate q) = false →
     let endDate := setHours tz tzLocal 23 59 59 999 now in
     let reportName :=
       p +:+ "_" +:+ orStr (q_startDate q) (isoDate now) +:+ "_"
         +:+ orStr (q_endDate q) (isoDate endDate) +:+ "_report" in
     match findJobs p (Some now) (Some endDate) with
     | inl e => GET' now q = (JsonResponse 500 (errorMessage e), [])
     | inr jobs =>
         let sheet := OperationSheet (worksheetRows tz jobs).1 in
         createReport reportName = None → writeBuffer sheet = None →
         (newHeaders (contentDispositionOf reportName) = None →
          GET' now q
          = (XlsxResponse "Operation Wise Report" sheet
               (contentDispositionOf reportName),
             [reportName])) ∧
         (∀ e, newHeaders (contentDispositionOf reportName) = Some e →
            GET' now q = (JsonResponse 500 (errorMessage e), [reportName]))
     end).
Proof.
  intros Htype. split.
  - intros Hproc. unfold GET. rewrite Htype.
    destruct (getDateRange _ _ _ _ _ _ _) as [startDate endDate].
    cbn [orStr String.eqb]. change (String.eqb "processWise" "processWise") with true.
    cbv iota. by rewrite Hproc.
  - intros p Hp Hne Hdates endDate reportName.
    assert (∀ r, (match findJobs p (Some now) (Some endDate) with
                  | inl e => (serverError e, [])
                  | inr jobs =>
                      sendFile' "Operation Wise Report"
                        (OperationSheet (worksheetRows tz jobs).1) reportName
                  end) = r → GET' now q = r) as Hget.
    { intros r <-. unfold GET. rewrite Htype.
      cbn [orStr]. change (String.eqb "processWise" "") with false. cbv iota.
      rewrite getDateRange_other;
        [|by rewrite !truthyStr_orUndefined|done..].
      change (String.eqb "processWise" "processWise") with true. cbv iota.
      rewrite Hp. cbn [truthyStr]. apply String.eqb_neq in Hne. rewrite Hne.
      cbn [negb default]. cbv iota. unfold id. fold endDate.
      destruct (findJobs p (Some now) (Some endDate)) as [e|jobs]; [done|].
      by rewrite !dateStrOf_Some, !orStr_orUndefined. }
    destruct (findJobs p (Some now) (Some endDate)) as [e|jobs].
    + by apply Hget.
    + intros sheet Hcreate Hwrite. split.
      * intros Hheaders. apply Hget. by apply sendFile_sent.
      * intros e Hheaders. apply Hget. by apply sendFile_refused.
Qed.

(** X21. A request for any other report asks the store for the dispatched
    products of the range. When the query throws, the answer is status 500
    with the message; when the store has no dispatched product in the
    range, it is status 404; in both cases no record is created. Otherwise
    the record of the download is created; then, when the workbook is
    written and [new Headers] takes the header, the workbook has one row
    per dispatched product, in the order of the store, then an empty row
    and the line of the total, which is the sum of the quantities of these
    products (for quantities that are non-negative integers with a sum of
    at most [2^53]), and when [new Headers] refuses the header (the report
    type comes from the request), the answer is status 500 although the
    record has been created. *)
Theorem dispatched_report now q :
  orStr (q_reportType q) "daily" ≠ "processWise" →
  let reportType := orStr (q_reportType q) "daily" in
  let r :=
    getDateRange tz tzLocal parseDate now reportType
      (orUndefined (q_startDate q)) (orUndefined (q_endDate q)) in
  let reportName :=
    toUpperCase (charAt0 reportType) +:+ slice1 reportType
      +:+ " Dispatched Products Report" in
  match findDispatched r.1 r.2 with
  | inl e => GET' now q = (JsonResponse 500 (errorMessage e), [])
  | inr [] =>
      GET' now q
      = (JsonResponse 404
           "No dispatched products found for the selected date range.", [])
  | inr products =>
      let sheet :=
        DispatchedSheet
          (((λ p, ProductRow (d_product p) (d_quantity p) (d_createdAt p))
              <$> products)
           ++ [DispatchEmptyRow;
               DispatchSummaryRow "Total Products Dispatched:"
                 (sumZ (d_quantity <$> products))]) in
      safeDispatched products →
      createReport reportName = None → writeBuffer sheet = None →
      (newHeaders (contentDispositionOf reportName) = None →
       GET' now q
       = (XlsxResponse "Dispatched Products Report" sheet
            (contentDispositionOf reportName),
          [reportName])) ∧
      (∀ e, newHeaders (contentDispositionOf reportName) = Some e →
         GET' now q = (JsonResponse 500 (errorMessage e), [reportName]))
  end.
Proof.
  intros Htype. apply String.eqb_neq in Htype. cbv zeta. unfold GET.
  destruct (getDateRange _ _ _ _ _ _ _) as [startDate endDate]. cbn [fst snd].
  rewrite Htype.
  destruct (findDispatched startDate endDate) as [e|[|p prods]]; [done|done|].
  intros _ Hcreate Hwrite. cbn [length Nat.eqb].
  unfold dispatchedRows. rewrite foldl_dispatched, Z.add_0_l. split.
  - intros Hheaders. by apply sendFile_sent.
  - intros e Hheaders. by apply sendFile_refused.
Qed.

(** X22. [formatTimeHHMMNoSeconds] gives the empty string exactly when it
    is given no date string ([null] or ['']). Given a string that
    [new Date] can read, it gives the local clock time of that date, of
    five characters; given any other string, it gives [NaN:NaN]. *)
Theorem formatTimeHHMMNoSeconds_shape dateStr :
  (formatTimeHHMMNoSeconds tz parseDate dateStr = "" ↔
   truthyStr dateStr = false) ∧
  (∀ s t, dateStr = Some s → s ≠ "" → parseDate s = Some t →
     formatTimeHHMMNoSeconds tz parseDate dateStr = hhmm tz t ∧
     String.length (formatTimeHHMMNoSeconds tz parseDate dateStr) = 5%nat) ∧
  (∀ s, dateStr = Some s → s ≠ "" → parseDate s = None →
     formatTimeHHMMNoSeconds tz parseDate dateStr = "NaN:NaN").
Proof.
  unfold formatTimeHHMMNoSeconds. split_and!.
  - destruct (truthyStr dateStr); cbn [negb]; [|done].
    split; [|done]. case_match; [|done].
    intros Hnil. pose proof (hhmm_length tz z) as Hlen.
    by rewrite Hnil in Hlen.
  - intros s t -> Hne%String.eqb_neq Hparse. cbn [truthyStr default].
    unfold id. rewrite Hne. cbn [negb]. rewrite Hparse.
    split; [done|apply hhmm_length].
  - intros s -> Hne%String.eqb_neq Hparse. cbn [truthyStr default].
    unfold id. rewrite Hne. cbn [negb]. by rewrite Hparse.
Qed.

End HandlerProofs.

(** * Runs of the further properties on example data *)

Lemma aggregate_keeps_total_witness :
  totalQuantity (aggregate [exRow "Widget" 4 "09:15" (Some 15);
                            exRow "Widget" 6 "09:15" (Some 15)]) = 10.
Proof.
  apply (aggregate_keeps_total [exRow "Widget" 4 "09:15" (Some 15);
                                exRow "Widget" 6 "09:15" (Some 15)]).
  split; [|by vm_compute].
  apply Forall_cons. split; [simpl; lia|].
  apply Forall_cons. split; [simpl; lia|]. apply Forall_nil_2.
Defined.

Lemma total_products_is_on_quantity_witness :
  last (worksheetRows utc
          [exJob "ON" 2 exNine None; exJob "OFF" 5 (exNine + 60000) None;
           exOrphan]).1
  = Some (SummaryRow "Total Products:" 2).
Proof.
  rewrite (total_products_is_on_quantity utc); [reflexivity| |by vm_compute].
  apply Forall_cons. split; [exists 2; split; [reflexivity|lia]|].
  apply Forall_cons. split; [exists 5; split; [reflexivity|lia]|].
  apply Forall_cons. split; [exists 0; split; [reflexivity|lia]|].
  apply Forall_nil_2.
Defined.

Lemma machine_number_after_hash_witness :
  getMachineNumber (Some ("CNC " +:+ String "#" ("12" +:+ " bay 3"))) = "12".
Proof.
  apply (machine_number_after_hash "CNC " "12" " bay 3"); done.
Defined.

Lemma group_has_one_product_and_machine_witness :
  productId (exJob "ON" 2 exNine None)
  = productId (exJob "OFF" 5 (exNine + 60000) None) ∧
  machineId (exJob "ON" 2 exNine None)
  = machineId (exJob "OFF" 5 (exNine + 60000) None).
Proof.
  apply (group_has_one_product_and_machine
           [exJob "ON" 2 exNine None; exJob "OFF" 5 (exNine + 60000) None]
           "7__3"
           [exJob "ON" 2 exNine None; exJob "OFF" 5 (exNine + 60000) None]).
  - apply Forall_cons. split; [reflexivity|].
    apply Forall_cons. split; [reflexivity|]. apply Forall_nil_2.
  - apply list_elem_of_In. left. reflexivity.
  - apply list_elem_of_In. left. reflexivity.
  - apply list_elem_of_In. right. left. reflexivity.
Defined.

Lemma row_date_is_utc_date_witness :
  row_date (matchedRow (fixedZone 330)
              (withRemaining (exJob "ON" 2 (exNine - 45000000) None))
              (withRemaining (exJob "OFF" 2 exNine None)) 2)
  = "2024-01-14" ∧
  row_onTime (matchedRow (fixedZone 330)
                (withRemaining (exJob "ON" 2 (exNine - 45000000) None))
                (withRemaining (exJob "OFF" 2 exNine None)) 2)
  = "02:00".
Proof.
  split; [|by vm_compute].
  rewrite (proj1 (row_date_is_utc_date (fixedZone 330)
             (withRemaining (exJob "ON" 2 (exNine - 45000000) None))
             (withRemaining (exJob "OFF" 2 exNine None)) 2 ltac:(by vm_compute)));
    by vm_compute.
Defined.

Lemma daily_range_is_today_witness :
  ∃ s e,
    getDateRange (fixedZone 330) (fixedZone 330) exParse exNine "daily"
      None None = (Some s, Some e) ∧
    localMidnight 330 s ∧ e = s + 86399999 ∧ s ≤ exNine ≤ e.
Proof. exact (daily_range_is_today 330 exParse exNine None None eq_refl). Defined.

Lemma weekly_range_starts_on_sunday_witness :
  ∃ s e,
    getDateRange (fixedZone 330) (fixedZone 330) exParse exNine "weekly"
      None None = (Some s, Some e) ∧
    localMidnight 330 s ∧ getDay 330 s = 0 ∧
    s ≤ exNine < s + 7 * 86400000 ∧
    exNine ≤ e ∧ localDayEnd 330 e ∧ localDay 330 e = localDay 330 exNine.
Proof.
  exact (weekly_range_starts_on_sunday 330 exParse exNine None None eq_refl).
Defined.

Lemma monthly_range_starts_on_first_witness :
  ∃ s e,
    getDateRange (fixedZone 330) (fixedZone 330) exParse exNine "monthly"
      None None = (Some s, Some e) ∧
    localMidnight 330 s ∧
    civilFromDays (localDay 330 s)
    = ((civilFromDays (localDay 330 exNine)).1, 1) ∧
    s ≤ exNine ≤ e ∧ localDayEnd 330 e.
Proof.
  exact (monthly_range_starts_on_first 330 exParse exNine None None eq_refl).
Defined.

Lemma custom_range_is_whole_days_witness :
  ∃ r1 r2,
    getDateRange (fixedZone 330) (fixedZone 330) exParse exNine "daily"
      (Some "2024-01-15") (Some "2024-01-17") = (Some r1, Some r2) ∧
    localMidnight 330 r1 ∧
    localDay 330 r1 = localDay 330 1705276800000 ∧
    localDayEnd 330 r2 ∧
    localDay 330 r2 = localDay 330 1705449600000 ∧
    r2 - r1 + 1
    = (localDay 330 1705449600000 - localDay 330 1705276800000 + 1) * 86400000.
Proof.
  exact (proj1 (custom_range_is_whole_days 330 exParse exNine "daily"
                  "2024-01-15" "2024-01-17" eq_refl)
           1705276800000 1705449600000 eq_refl eq_refl).
Defined.

Lemma other_range_starts_now_witness :
  ∃ e,
    getDateRange (fixedZone 330) (fixedZone 330) exParse exNine "processWise"
      None None = (Some exNine, Some e) ∧
    exNine ≤ e < exNine + 86400000 ∧ localDayEnd 330 e.
Proof.
  apply (other_range_starts_now 330 exParse exNine "processWise" None None);
    done.
Defined.

Lemma process_wise_request_witness :
  GET (fixedZone 330) (fixedZone 330) exParse exUpper exFindJobs exNoDispatched
    exCreate exWrite exHeaders exNine exProcessQuery
  = (XlsxResponse "Operation Wise Report"
       (OperationSheet
          (worksheetRows (fixedZone 330) [exJob "ON" 2 exNine None]).1)
       (contentDispositionOf "CUTTING_2024-01-15_2024-01-15_report"),
     ["CUTTING_2024-01-15_2024-01-15_report"]).
Proof.
  apply (proj2 (process_wise_request (fixedZone 330) (fixedZone 330) exParse
                  exUpper exFindJobs exNoDispatched exCreate exWrite exHeaders
                  exNine exProcessQuery eq_refl) "CUTTING");
    done.
Defined.

Lemma dispatched_report_witness :
  GET (fixedZone 330) (fixedZone 330) exParse exUpper exFindJobs exNoDispatched
    exCreate exWrite exHeaders exNine exDailyQuery
  = (JsonResponse 404
       "No dispatched products found for the selected date range.", []).
Proof.
  exact (dispatched_report (fixedZone 330) (fixedZone 330) exParse exUpper
           exFindJobs exNoDispatched exCreate exWrite exHeaders exNine
           exDailyQuery ltac:(done)).
Defined.

(** On the day on which the clocks go forward the daily range, from local
    midnight to the last millisecond of the local day, is an hour short of
    a day. The request is at 16:00 UTC. *)
Example daily_range_on_a_short_day :
  getDateRange exSpringZone exSpringZoneLocal exParse 1710086400000 "daily"
    None None
  = (Some 1710046800000, Some (1710046800000 + 82799999)).
Proof. by vm_compute. Qed.

(** A name of the operation that [new Headers] refuses: the answer is
    status 500, and the record of the download is there. *)
Example refused_header_leaves_a_record :
  GET (fixedZone 330) (fixedZone 330) exParse exUpper exFindJobs exNoDispatched
    exCreate exWrite exHeaders exNine exLineFeedQuery
  = (JsonResponse 500 "Invalid header value",
     ["CUT" +:+ String (ascii_of_nat 10) "TING"
        +:+ "_2024-01-15_2024-01-17_report"]).
Proof. by vm_compute. Qed.

(** * The formats of dates and times *)

Section FormatProofs.

Variable offset : Z.

Lemma civilFromDays_month n :
  1 ≤ (civilFromDays n).1.2 ≤ 12.
Proof.
  unfold civilFromDays. cbv zeta. cbn [fst snd].
  set (z := n + 719468). set (era := z `div` 146097).
  set (doe := z - era * 146097).
  assert (0 ≤ doe < 146097) as Hdoe
    by (unfold doe, era; Z.div_mod_to_equations; lia).
  set (yoe := (doe - doe `div` 1460 + doe `div` 36524 - doe `div` 146096)
                `div` 365).
  set (doy := doe - (365 * yoe + yoe `div` 4 - yoe `div` 100)).
  assert (0 ≤ doy ≤ 365) as Hdoy
    by (unfold doy, yoe; Z.div_mod_to_equations; lia).
  set (mp := (5 * doy + 2) `div` 153).
  assert (0 ≤ mp ≤ 11) as Hmp by (unfold mp; Z.div_mod_to_equations; lia).
  destruct (Z.ltb_spec mp 10); lia.
Qed.

Lemma pretty_year_length y : 1000 ≤ y ≤ 9999 → String.length (pretty y) = 4%nat.
Proof.
  intros Hy.
  assert (forallb (λ k, (String.length (pretty k) =? 4)%nat) (seqZ 1000 9000)
          = true) as Hall by (by vm_compute).
  rewrite forallb_forall in Hall.
  apply Nat.eqb_eq, Hall, list_elem_of_In, elem_of_seqZ. lia.
Qed.

(** X23. For a date whose local year has four digits, [formatDateTimeNoMs]
    and [getIsoDateTimeToSecond] print the same date of ten characters and
    the same time of eight characters, the first with a space and the
    second with a [T] between them; and in a zone without offset the date
    is the one that [toISOString] prints. *)
Theorem date_time_formats_shape date :
  1000 ≤ getFullYear offset date ≤ 9999 →
  String.length (localDatePart offset date) = 10%nat ∧
  String.length (localTimePart offset date) = 8%nat ∧
  formatDateTimeNoMs offset date
  = localDatePart offset date +:+ " " +:+ localTimePart offset date ∧
  getIsoDateTimeToSecond offset date
  = localDatePart offset date +:+ "T" +:+ localTimePart offset date ∧
  String.length (formatDateTimeNoMs offset date) = 19%nat ∧
  String.length (getIsoDateTimeToSecond offset date) = 19%nat ∧
  (offset = 0 → localDatePart offset date = isoDate date).
Proof.
  intros Hy.
  pose proof (civilFromDays_month (localDay offset date)) as Hm.
  destruct (civilFromDays_first (localDay offset date)) as [_ Hd].
  assert (String.length (localDatePart offset date) = 10%nat) as Hdate.
  { unfold localDatePart. rewrite !length_append, pretty_year_length by done.
    rewrite !pad2_length; [done|unfold getDate; lia|unfold getMonth1; lia]. }
  assert (String.length (localTimePart offset date) = 8%nat) as Htime.
  { unfold localTimePart. rewrite !length_append, !pad2_length; [done|..].
    - unfold getSeconds.
      pose proof (Z.mod_pos_bound ((date + offset * 60000) `div` 1000) 60). lia.
    - unfold getMinutes.
      pose proof (Z.mod_pos_bound
                    (localTime (fixedZone offset) date `div` 60000) 60). lia.
    - unfold getHours.
      pose proof (Z.mod_pos_bound
                    (localTime (fixedZone offset) date `div` 3600000) 24). lia. }
  split_and!; try done.
  - unfold formatDateTimeNoMs. by rewrite !length_append, Hdate, Htime.
  - unfold getIsoDateTimeToSecond. by rewrite !length_append, Hdate, Htime.
  - intros ->. unfold localDatePart, isoDate, getFullYear, getMonth1, getDate,
      localDay in *.
    rewrite Z.mul_0_l, Z.add_0_r in *.
    destruct (civilFromDays (date `div` 86400000)) as [[y m] d].
    cbn [fst snd] in *. unfold isoYear.
    destruct (Z.leb_spec 0 y); [|lia]. destruct (Z.leb_spec y 9999); [|lia].
    cbn [andb]. unfold padStart0. by rewrite pretty_year_length by done.
Qed.

End FormatProofs.

Lemma date_time_formats_shape_witness :
  formatDateTimeNoMs 330 (exNine + 7000) = "2024-01-15 14:30:07" ∧
  String.length (getIsoDateTimeToSecond 330 (exNine + 7000)) = 19%nat.
Proof.
  split; [by vm_compute|].
  apply (date_time_formats_shape 330 (exNine + 7000)). by vm_compute.
Defined.
